(** * Instagram promo-video generator: [src/app/page.tsx]

    A shallow embedding of the page component: the frame-size helper
    ([parseAspect], [constrainSize]), the per-frame arithmetic of
    [drawFrame], the greedy [wrapText] loop and the handlers that drive the
    preview loop and the [MediaRecorder].

    JavaScript numbers are modelled by exact rationals ([Q]): every finite
    double is a rational, and the arithmetic of the page is field
    arithmetic, [Math.min], [Math.max], [Math.round] and a cube.  IEEE
    rounding is not modelled.  The only irrational values are those of
    [Math.sin] and [Math.cos] in the camera pan; the pan and the image
    placement that depends on it are real numbers ([R]). *)

From Stdlib Require Import QArith Qminmax Qround Qreals.
From Stdlib Require Import Reals ZArith Lia Psatz.
From Stdlib Require Import String Ascii List Bool.
Import ListNotations.

Local Open Scope Q_scope.

(** ** JavaScript helpers *)

(** [a < b] and [a > b] on numbers, as booleans. *)
Definition Qltb (a b : Q) : bool := negb (Qle_bool b a).
Definition Qgtb (a b : Q) : bool := Qltb b a.

(** [Math.round]: the nearest integer, halves going up. *)
Definition Math_round (x : Q) : Q := inject_Z (Qfloor (x + (1 # 2))).

(** [Math.round] on a real argument. *)
Definition Math_roundR (x : R) : R := IZR (Int_part (x + / 2)).

(** [Math.pow] at a natural exponent. *)
Definition Math_pow (x : Q) (n : nat) : Q := Qpower x (Z.of_nat n).

(** [s.split(sep)] for a one-character separator: the pieces between the
    separators, empty pieces included; the empty string gives one empty
    piece. *)
Fixpoint split (sep : ascii) (s : string) : list string :=
  match s with
  | EmptyString => [EmptyString]
  | String c s' =>
      if Ascii.eqb c sep then EmptyString :: split sep s'
      else match split sep s' with
           | w :: ws => String c w :: ws
           | [] => [String c EmptyString]
           end
  end.

Definition digit_of (c : ascii) : option Z :=
  let n := nat_of_ascii c in
  if ((48 <=? n) && (n <=? 57))%nat then Some (Z.of_nat (n - 48)) else None.

Fixpoint parse_digits (acc : Z) (s : string) : option Z :=
  match s with
  | EmptyString => Some acc
  | String c s' =>
      match digit_of c with
      | Some d => parse_digits (10 * acc + d) s'
      | None => None
      end
  end.

(** [Number(s)] on strings of decimal digits ([Number("")] is 0).  [None]
    stands for [NaN]; signs, fractions and exponents do not occur in the
    strings of this page. *)
Definition Number (s : string) : option Q :=
  option_map inject_Z (parse_digits 0 s).

(** ** Frame size *)

(** [type Aspect = "9:16" | "4:5"]. *)
Inductive Aspect : Type :=
| Aspect_9_16
| Aspect_4_5.

Definition aspect_literal (a : Aspect) : string :=
  match a with
  | Aspect_9_16 => "9:16"
  | Aspect_4_5 => "4:5"
  end.

Record ParsedAspect : Type := { w : Q; h : Q; ratio : Q }.

Definition parseAspect (aspect : Aspect) : option ParsedAspect :=
  match map Number (split ":" (aspect_literal aspect)) with
  | Some w :: Some h :: _ => Some {| w := w; h := h; ratio := w / h |}
  | _ => None
  end.

Record Size : Type := { width : Q; height : Q }.

Definition constrainSize (aspect : Aspect) (maxWidth : Q) : option Size :=
  match parseAspect aspect with
  | Some p =>
      let width := maxWidth in
      let height := Math_round (width / ratio p) in
      Some {| width := width; height := height |}
  | None => None
  end.

(** [useMemo(() => constrainSize(aspect, 540), [aspect])]. *)
Definition size (aspect : Aspect) : option Size := constrainSize aspect 540.

(** ** Canvas text: [wrapText] *)

(** One [ctx.fillText(text, x, y)] call. *)
Record FillText : Type := { ft_text : string; ft_x : Q; ft_y : Q }.

(** The [for] loop of [wrapText] from index [n] on, [words] being the
    words not yet read; the result lists the [fillText] calls in order,
    the one after the loop included. *)
Fixpoint wrapText_loop (measureText : string -> Q) (x maxWidth lineHeight : Q)
    (n : nat) (words : list string) (line : string) (currentY : Q)
    : list FillText :=
  match words with
  | [] => [ {| ft_text := line; ft_x := x; ft_y := currentY |} ]
  | word :: rest =>
      let testLine := ((line ++ word) ++ " ")%string in
      let testWidth := measureText testLine in
      if Qgtb testWidth maxWidth && (0 <? n)%nat then
        {| ft_text := line; ft_x := x; ft_y := currentY |}
          :: wrapText_loop measureText x maxWidth lineHeight (S n) rest
               (word ++ " ")%string (currentY + lineHeight)
      else
        wrapText_loop measureText x maxWidth lineHeight (S n) rest
          testLine currentY
  end.

(** [wrapText(ctx, text, x, y, maxWidth, lineHeight)]; [measureText s] is
    [ctx.measureText(s).width] under the font set by the caller. *)
Definition wrapText (measureText : string -> Q) (text : string)
    (x y maxWidth lineHeight : Q) : list FillText :=
  wrapText_loop measureText x maxWidth lineHeight 0 (split " " text) "" y.

(** The line that holds the words [ws]: each word followed by one space,
    as the loop builds it. *)
Fixpoint lineOf (ws : list string) : string :=
  match ws with
  | [] => ""%string
  | word :: ws' => ((word ++ " ") ++ lineOf ws')%string
  end.

(** The same loop with the words of the current line kept apart
    ([current], whose line is [lineOf current]); the result lists the
    words of each line drawn.  [wrapText_lines] below relates it to
    [wrapText]. *)
Fixpoint wrapWords_loop (measureText : string -> Q) (maxWidth : Q)
    (n : nat) (words : list string) (current : list string)
    : list (list string) :=
  match words with
  | [] => [current]
  | word :: rest =>
      let testWidth := measureText (lineOf (current ++ [word])) in
      if Qgtb testWidth maxWidth && (0 <? n)%nat then
        current :: wrapWords_loop measureText maxWidth (S n) rest [word]
      else
        wrapWords_loop measureText maxWidth (S n) rest (current ++ [word])
  end.

Definition wrapWords (measureText : string -> Q) (text : string)
    (maxWidth : Q) : list (list string) :=
  wrapWords_loop measureText maxWidth 0 (split " " text) [].

(** A line within the width, or a single word that alone is too wide. *)
Definition fits (measureText : string -> Q) (maxWidth : Q)
    (g : list string) : Prop :=
  measureText (lineOf g) <= maxWidth \/
  exists word : string,
    g = [word] /\ maxWidth < measureText (word ++ " ")%string.

(** A measure under which no string is narrower than a part of it. *)
Definition monotone (measureText : string -> Q) : Prop :=
  forall a b : string,
    measureText a <= measureText (a ++ b)%string /\
    measureText b <= measureText (a ++ b)%string.

(** ** One frame: [drawFrame] *)

Record Canvas : Type := { canvas_width : Q; canvas_height : Q }.

Record Image : Type := { naturalWidth : Q; naturalHeight : Q }.

(** The arguments of [ctx.drawImage(img, dx, dy, drawW, drawH)]. *)
Record DrawImage : Type := { di_dx : R; di_dy : R; di_w : R; di_h : R }.

(** The call-to-action pill, when it is drawn. *)
Record CtaPill : Type :=
  { cta_alpha : Q; cta_x : Q; cta_y : Q; cta_w : Q; cta_h : Q }.

(** What one call of [drawFrame] puts on the canvas, in drawing order. *)
Record Frame : Type := {
  frame_image : DrawImage;
  frame_badgeWidth : Q;
  frame_headAlpha : Q;
  frame_headline : list FillText;
  frame_points : list (Q * FillText);
  frame_cta : option CtaPill
}.

Definition headline : string :=
  "???? ???? ???????????????? Deen Ply Doors ???? perfect choice!".

Definition points : list string :=
  [ "Doors, Plywoods, Interior Items, Iron Doors, WPVC, UPVC ? ??? ????????";
    "Design super, price friendly, quality strong";
    "????? ???????? Bus Stop ???????" ]%string.

Definition cta : string := "DM ???????? ? catalog ???? ???????????!".

Definition badge : string := "Deen Ply Doors".

Definition font_badge : string :=
  "700 16px ui-sans-serif, system-ui, -apple-system, Segoe UI, Roboto".
Definition font_headline : string :=
  "800 22px ui-sans-serif, system-ui, -apple-system, Segoe UI, Roboto".
Definition font_points : string :=
  "600 16px ui-sans-serif, system-ui, -apple-system, Segoe UI, Roboto".
Definition font_cta : string :=
  "800 16px ui-sans-serif, system-ui, -apple-system, Segoe UI, Roboto".

(** The local constants of [drawFrame], each as a function of the
    constants it is computed from. *)
Module DrawFrame.

Definition elapsed (now startTime : Q) : Q := (now - startTime) / 1000.

Definition t (elapsed durationSec : Q) : Q :=
  Qmin (elapsed / durationSec) 1.

(** Ken Burns: slow zoom in + pan. *)
Definition zoom (t : Q) : Q := 1.05 + t * 0.12.

Definition panX (t : Q) : R := (sin (Q2R t * PI * 2) * 0.05)%R.

Definition panY (t : Q) : R := (cos (Q2R t * PI * 2) * 0.04)%R.

(** Fit image to cover canvas. *)
Definition scale (canvas : Canvas) (img : Image) (zoom : Q) : Q :=
  Qmax (canvas_width canvas / naturalWidth img)
       (canvas_height canvas / naturalHeight img) * zoom.

Definition drawW (img : Image) (scale : Q) : Q := naturalWidth img * scale.

Definition drawH (img : Image) (scale : Q) : Q := naturalHeight img * scale.

Definition centerX (canvas : Canvas) (panX : R) : R :=
  (Q2R (canvas_width canvas / 2) + panX * Q2R (canvas_width canvas))%R.

Definition centerY (canvas : Canvas) (panY : R) : R :=
  (Q2R (canvas_height canvas / 2) + panY * Q2R (canvas_height canvas))%R.

Definition dx (centerX : R) (drawW : Q) : R :=
  Math_roundR (centerX - Q2R (drawW / 2)).

Definition dy (centerY : R) (drawH : Q) : R :=
  Math_roundR (centerY - Q2R (drawH / 2)).

Definition pad : Q := 16.

(** Headline with subtle entrance over first 2 seconds. *)
Definition ease (x : Q) : Q := 1 - Math_pow (1 - x) 3.

Definition headAlpha (elapsed t : Q) : Q :=
  if Qltb t 0.05 then ease (Qmin (elapsed / 2) 1) else 1.

(** Bullet points staggered. *)
Definition appearAt (i : nat) : Q := 4 + inject_Z (Z.of_nat i) * 3.

Definition alpha (elapsed : Q) (i : nat) : Q :=
  Qmin (Qmax ((elapsed - appearAt i) / 1.5) 0) 1.

(** CTA pill. *)
Definition ctaAppear : Q := 12.

Definition ctaAlpha (elapsed : Q) : Q :=
  Qmin (Qmax ((elapsed - ctaAppear) / 1.5) 0) 1.

End DrawFrame.

(** The [drawImage] call of the frame at progress [t]. *)
Definition drawImage_at (canvas : Canvas) (img : Image) (t : Q) : DrawImage :=
  let zoom := DrawFrame.zoom t in
  let panX := DrawFrame.panX t in
  let panY := DrawFrame.panY t in
  let scale := DrawFrame.scale canvas img zoom in
  let drawW := DrawFrame.drawW img scale in
  let drawH := DrawFrame.drawH img scale in
  let centerX := DrawFrame.centerX canvas panX in
  let centerY := DrawFrame.centerY canvas panY in
  {| di_dx := DrawFrame.dx centerX drawW;
     di_dy := DrawFrame.dy centerY drawH;
     di_w := Q2R drawW;
     di_h := Q2R drawH |}.

(** The pill of the frame at [elapsed] seconds: drawn only when its
    opacity is positive. *)
Definition ctaPill_at (measureText : string -> string -> Q) (canvas : Canvas)
    (elapsed : Q) : option CtaPill :=
  let ctaAlpha := DrawFrame.ctaAlpha elapsed in
  if Qgtb ctaAlpha 0 then
    let ctaPaddingX := 12 in
    let ctaW := measureText font_cta cta + ctaPaddingX * 2 in
    let ctaH := 34 in
    let ctaX := canvas_width canvas - ctaW - DrawFrame.pad in
    let ctaY := canvas_height canvas - ctaH - DrawFrame.pad in
    Some {| cta_alpha := ctaAlpha; cta_x := ctaX; cta_y := ctaY;
            cta_w := ctaW; cta_h := ctaH |}
  else None.

(** [points.forEach((p, i) => ...)] from index [i] on. *)
Fixpoint drawPoints (canvas : Canvas) (elapsed : Q) (i : nat)
    (ps : list string) : list (Q * FillText) :=
  match ps with
  | [] => []
  | p :: ps' =>
      let alpha := DrawFrame.alpha elapsed i in
      let y := canvas_height canvas - 120 + inject_Z (Z.of_nat i) * 22 in
      (alpha, {| ft_text := ("? " ++ p)%string; ft_x := DrawFrame.pad;
                 ft_y := y |})
        :: drawPoints canvas elapsed (S i) ps'
  end.

(** [drawFrame(now)]: nothing is drawn unless the canvas and the image
    element are there (the 2D context of a canvas is taken to exist).
    [measureText font s] is the width of [s] in [font]; [startTime] and
    [durationSec] are [startTimeRef.current] and the duration the closure
    was created with. *)
Definition drawFrame (measureText : string -> string -> Q)
    (canvas : option Canvas) (img : option Image)
    (startTime durationSec now : Q) : option Frame :=
  match canvas, img with
  | Some canvas, Some img =>
      let elapsed := DrawFrame.elapsed now startTime in
      let t := DrawFrame.t elapsed durationSec in
      let pad := DrawFrame.pad in
      Some {| frame_image := drawImage_at canvas img t;
              frame_badgeWidth := measureText font_badge badge + 24;
              frame_headAlpha := DrawFrame.headAlpha elapsed t;
              frame_headline :=
                wrapText (measureText font_headline) headline pad
                  (canvas_height canvas - 160)
                  (canvas_width canvas - pad * 2) 28;
              frame_points := drawPoints canvas elapsed 0 points;
              frame_cta := ctaPill_at measureText canvas elapsed |}
  | _, _ => None
  end.

(** ** The page component: state, refs and the browser objects it drives *)

(** A [File] picked by the user, by handle. *)
Definition File : Type := nat.

(** [URL.createObjectURL]: a fresh URL for a file or for the recorded
    blob (its chunks, by size). *)
Inductive ObjectURL : Type :=
| UrlOfFile (id : nat) (f : File)
| UrlOfBlob (id : nat) (chunks : list nat).

(** [MediaRecorder.state], as far as the page reaches it. *)
Inductive RecordingState : Type :=
| inactive
| recording.

(** A [MediaRecorder] object.  [stopCalls] is a log kept for the proofs:
    one entry per [stop()] invocation, the state the recorder was in when
    it was invoked, oldest first. *)
Record MediaRecorder : Type :=
  { state : RecordingState; stopCalls : list RecordingState }.

(** A pending [setTimeout(() => recorder.stop(), ...)]: when it is due (in
    milliseconds) and the recorder object its closure holds. *)
Record Timer : Type := { timer_due : Q; timer_recorder : nat }.

(** The component between two handlers: the [useState] values, the
    [useRef] cells, and the browser side (clock, recorder objects by
    handle, pending timers, queued recorder [stop] events, pending
    animation-frame requests, and the next fresh handle). *)
Record Page : Type := {
  imageUrl : option ObjectURL;
  aspect : Aspect;
  durationSec : Q;
  isRecording : bool;
  downloadUrl : option ObjectURL;
  canvasRef : option Canvas;
  imageRef : option Image;
  recorderRef : option nat;
  chunksRef : list nat;
  startTimeRef : Q;
  animRef : option nat;
  clock : Q;
  recorders : list MediaRecorder;
  timers : list Timer;
  stopEvents : list nat;
  frameRequests : list nat;
  nextId : nat
}.

Definition initialPage : Page :=
  {| imageUrl := None; aspect := Aspect_9_16; durationSec := 60;
     isRecording := false; downloadUrl := None;
     canvasRef := None; imageRef := None; recorderRef := None;
     chunksRef := []; startTimeRef := 0; animRef := None;
     clock := 0; recorders := []; timers := []; stopEvents := [];
     frameRequests := []; nextId := 1 |}.

(** Field updates. *)
Definition setImageUrl (v : option ObjectURL) (s : Page) : Page :=
  {| imageUrl := v; aspect := aspect s; durationSec := durationSec s;
     isRecording := isRecording s; downloadUrl := downloadUrl s;
     canvasRef := canvasRef s; imageRef := imageRef s;
     recorderRef := recorderRef s; chunksRef := chunksRef s;
     startTimeRef := startTimeRef s; animRef := animRef s;
     clock := clock s; recorders := recorders s; timers := timers s;
     stopEvents := stopEvents s; frameRequests := frameRequests s;
     nextId := nextId s |}.

Definition setAspect (v : Aspect) (s : Page) : Page :=
  {| imageUrl := imageUrl s; aspect := v; durationSec := durationSec s;
     isRecording := isRecording s; downloadUrl := downloadUrl s;
     canvasRef := canvasRef s; imageRef := imageRef s;
     recorderRef := recorderRef s; chunksRef := chunksRef s;
     startTimeRef := startTimeRef s; animRef := animRef s;
     clock := clock s; recorders := recorders s; timers := timers s;
     stopEvents := stopEvents s; frameRequests := frameRequests s;
     nextId := nextId s |}.

Definition setDurationSec (v : Q) (s : Page) : Page :=
  {| imageUrl := imageUrl s; aspect := aspect s; durationSec := v;
     isRecording := isRecording s; downloadUrl := downloadUrl s;
     canvasRef := canvasRef s; imageRef := imageRef s;
     recorderRef := recorderRef s; chunksRef := chunksRef s;
     startTimeRef := startTimeRef s; animRef := animRef s;
     clock := clock s; recorders := recorders s; timers := timers s;
     stopEvents := stopEvents s; frameRequests := frameRequests s;
     nextId := nextId s |}.

Definition setIsRecording (v : bool) (s : Page) : Page :=
  {| imageUrl := imageUrl s; aspect := aspect s; durationSec := durationSec s;
     isRecording := v; downloadUrl := downloadUrl s;
     canvasRef := canvasRef s; imageRef := imageRef s;
     recorderRef := recorderRef s; chunksRef := chunksRef s;
     startTimeRef := startTimeRef s; animRef := animRef s;
     clock := clock s; recorders := recorders s; timers := timers s;
     stopEvents := stopEvents s; frameRequests := frameRequests s;
     nextId := nextId s |}.

Definition setDownloadUrl (v : option ObjectURL) (s : Page) : Page :=
  {| imageUrl := imageUrl s; aspect := aspect s; durationSec := durationSec s;
     isRecording := isRecording s; downloadUrl := v;
     canvasRef := canvasRef s; imageRef := imageRef s;
     recorderRef := recorderRef s; chunksRef := chunksRef s;
     startTimeRef := startTimeRef s; animRef := animRef s;
     clock := clock s; recorders := recorders s; timers := timers s;
     stopEvents := stopEvents s; frameRequests := frameRequests s;
     nextId := nextId s |}.

Definition setElements (c : option Canvas) (i : option Image) (s : Page)
    : Page :=
  {| imageUrl := imageUrl s; aspect := aspect s; durationSec := durationSec s;
     isRecording := isRecording s; downloadUrl := downloadUrl s;
     canvasRef := c; imageRef := i;
     recorderRef := recorderRef s; chunksRef := chunksRef s;
     startTimeRef := startTimeRef s; animRef := animRef s;
     clock := clock s; recorders := recorders s; timers := timers s;
     stopEvents := stopEvents s; frameRequests := frameRequests s;
     nextId := nextId s |}.

Definition setRecorderRef (v : option nat) (s : Page) : Page :=
  {| imageUrl := imageUrl s; aspect := aspect s; durationSec := durationSec s;
     isRecording := isRecording s; downloadUrl := downloadUrl s;
     canvasRef := canvasRef s; imageRef := imageRef s;
     recorderRef := v; chunksRef := chunksRef s;
     startTimeRef := startTimeRef s; animRef := animRef s;
     clock := clock s; recorders := recorders s; timers := timers s;
     stopEvents := stopEvents s; frameRequests := frameRequests s;
     nextId := nextId s |}.

Definition setChunksRef (v : list nat) (s : Page) : Page :=
  {| imageUrl := imageUrl s; aspect := aspect s; durationSec := durationSec s;
     isRecording := isRecording s; downloadUrl := downloadUrl s;
     canvasRef := canvasRef s; imageRef := imageRef s;
     recorderRef := recorderRef s; chunksRef := v;
     startTimeRef := startTimeRef s; animRef := animRef s;
     clock := clock s; recorders := recorders s; timers := timers s;
     stopEvents := stopEvents s; frameRequests := frameRequests s;
     nextId := nextId s |}.

Definition setStartTimeRef (v : Q) (s : Page) : Page :=
  {| imageUrl := imageUrl s; aspect := aspect s; durationSec := durationSec s;
     isRecording := isRecording s; downloadUrl := downloadUrl s;
     canvasRef := canvasRef s; imageRef := imageRef s;
     recorderRef := recorderRef s; chunksRef := chunksRef s;
     startTimeRef := v; animRef := animRef s;
     clock := clock s; recorders := recorders s; timers := timers s;
     stopEvents := stopEvents s; frameRequests := frameRequests s;
     nextId := nextId s |}.

Definition setAnimRef (v : option nat) (s : Page) : Page :=
  {| imageUrl := imageUrl s; aspect := aspect s; durationSec := durationSec s;
     isRecording := isRecording s; downloadUrl := downloadUrl s;
     canvasRef := canvasRef s; imageRef := imageRef s;
     recorderRef := recorderRef s; chunksRef := chunksRef s;
     startTimeRef := startTimeRef s; animRef := v;
     clock := clock s; recorders := recorders s; timers := timers s;
     stopEvents := stopEvents s; frameRequests := frameRequests s;
     nextId := nextId s |}.

Definition setClock (v : Q) (s : Page) : Page :=
  {| imageUrl := imageUrl s; aspect := aspect s; durationSec := durationSec s;
     isRecording := isRecording s; downloadUrl := downloadUrl s;
     canvasRef := canvasRef s; imageRef := imageRef s;
     recorderRef := recorderRef s; chunksRef := chunksRef s;
     startTimeRef := startTimeRef s; animRef := animRef s;
     clock := v; recorders := recorders s; timers := timers s;
     stopEvents := stopEvents s; frameRequests := frameRequests s;
     nextId := nextId s |}.

Definition setRecorders (v : list MediaRecorder) (s : Page) : Page :=
  {| imageUrl := imageUrl s; aspect := aspect s; durationSec := durationSec s;
     isRecording := isRecording s; downloadUrl := downloadUrl s;
     canvasRef := canvasRef s; imageRef := imageRef s;
     recorderRef := recorderRef s; chunksRef := chunksRef s;
     startTimeRef := startTimeRef s; animRef := animRef s;
     clock := clock s; recorders := v; timers := timers s;
     stopEvents := stopEvents s; frameRequests := frameRequests s;
     nextId := nextId s |}.

Definition setTimers (v : list Timer) (s : Page) : Page :=
  {| imageUrl := imageUrl s; aspect := aspect s; durationSec := durationSec s;
     isRecording := isRecording s; downloadUrl := downloadUrl s;
     canvasRef := canvasRef s; imageRef := imageRef s;
     recorderRef := recorderRef s; chunksRef := chunksRef s;
     startTimeRef := startTimeRef s; animRef := animRef s;
     clock := clock s; recorders := recorders s; timers := v;
     stopEvents := stopEvents s; frameRequests := frameRequests s;
     nextId := nextId s |}.

Definition setStopEvents (v : list nat) (s : Page) : Page :=
  {| imageUrl := imageUrl s; aspect := aspect s; durationSec := durationSec s;
     isRecording := isRecording s; downloadUrl := downloadUrl s;
     canvasRef := canvasRef s; imageRef := imageRef s;
     recorderRef := recorderRef s; chunksRef := chunksRef s;
     startTimeRef := startTimeRef s; animRef := animRef s;
     clock := clock s; recorders := recorders s; timers := timers s;
     stopEvents := v; frameRequests := frameRequests s;
     nextId := nextId s |}.

Definition setFrameRequests (v : list nat) (s : Page) : Page :=
  {| imageUrl := imageUrl s; aspect := aspect s; durationSec := durationSec s;
     isRecording := isRecording s; downloadUrl := downloadUrl s;
     canvasRef := canvasRef s; imageRef := imageRef s;
     recorderRef := recorderRef s; chunksRef := chunksRef s;
     startTimeRef := startTimeRef s; animRef := animRef s;
     clock := clock s; recorders := recorders s; timers := timers s;
     stopEvents := stopEvents s; frameRequests := v;
     nextId := nextId s |}.

Definition setNextId (v : nat) (s : Page) : Page :=
  {| imageUrl := imageUrl s; aspect := aspect s; durationSec := durationSec s;
     isRecording := isRecording s; downloadUrl := downloadUrl s;
     canvasRef := canvasRef s; imageRef := imageRef s;
     recorderRef := recorderRef s; chunksRef := chunksRef s;
     startTimeRef := startTimeRef s; animRef := animRef s;
     clock := clock s; recorders := recorders s; timers := timers s;
     stopEvents := stopEvents s; frameRequests := frameRequests s;
     nextId := v |}.

(** *** Browser objects *)

(** The list with [f] applied to its element at index [i]. *)
Fixpoint update {A : Type} (i : nat) (f : A -> A) (l : list A) : list A :=
  match l, i with
  | [], _ => []
  | x :: l', O => f x :: l'
  | x :: l', S i' => x :: update i' f l'
  end.

Definition createObjectURL_file (f : File) (s : Page) : ObjectURL * Page :=
  (UrlOfFile (nextId s) f, setNextId (S (nextId s)) s).

Definition createObjectURL_blob (chunks : list nat) (s : Page)
    : ObjectURL * Page :=
  (UrlOfBlob (nextId s) chunks, setNextId (S (nextId s)) s).

Definition requestAnimationFrame (s : Page) : nat * Page :=
  (nextId s,
   setNextId (S (nextId s))
     (setFrameRequests (frameRequests s ++ [nextId s]) s)).

Definition cancelAnimationFrame (id : nat) (s : Page) : Page :=
  setFrameRequests (remove Nat.eq_dec id (frameRequests s)) s.

(** [new MediaRecorder(stream, ...)]: a new inactive recorder object. *)
Definition newMediaRecorder (s : Page) : nat * Page :=
  (length (recorders s),
   setRecorders
     (recorders s ++ [ {| state := inactive; stopCalls := [] |} ]) s).

Definition started (m : MediaRecorder) : MediaRecorder :=
  {| state := recording; stopCalls := stopCalls m |}.

Definition stopped (m : MediaRecorder) : MediaRecorder :=
  {| state := inactive; stopCalls := stopCalls m ++ [state m] |}.

(** [recorder.start()]. *)
Definition recorder_start (r : nat) (s : Page) : Page :=
  setRecorders (update r started (recorders s)) s.

(** [recorder.stop()]: a recording recorder becomes inactive and its
    [stop] event is queued; on an inactive recorder the call changes
    nothing (it returns, or throws at once in older browsers). *)
Definition recorder_stop (r : nat) (s : Page) : Page :=
  match nth_error (recorders s) r with
  | None => s
  | Some m =>
      let s' := setRecorders (update r stopped (recorders s)) s in
      match state m with
      | recording => setStopEvents (stopEvents s' ++ [r]) s'
      | inactive => s'
      end
  end.

(** [setTimeout(() => { recorder.stop(); }, delay)]; a negative delay
    counts as zero. *)
Definition setTimeout_stop (r : nat) (delay : Q) (s : Page) : Page :=
  setTimers
    (timers s ++ [ {| timer_due := clock s + Qmax delay 0;
                      timer_recorder := r |} ]) s.

(** *** Handlers *)

Definition handleFile (f : File) (s : Page) : Page :=
  let (url, s1) := createObjectURL_file f s in
  setDownloadUrl None (setImageUrl (Some url) s1).

(** [if (animRef.current) cancelAnimationFrame(animRef.current)]. *)
Definition cancelPending (s : Page) : Page :=
  match animRef s with
  | Some (S _ as id) => cancelAnimationFrame id s
  | _ => s
  end.

Definition startPreview (s : Page) : Page :=
  match canvasRef s, imageRef s with
  | Some _, Some _ =>
      let s1 := cancelPending s in
      let s2 := setStartTimeRef 0 s1 in
      let (id, s3) := requestAnimationFrame s2 in
      setAnimRef (Some id) s3
  | _, _ => s
  end.

(** The [loop] callback of [startPreview]; the drawing itself is
    [drawFrame] above and leaves the page state alone. *)
Definition loop (ts : Q) (s : Page) : Page :=
  let s1 := if Qeq_bool (startTimeRef s) 0 then setStartTimeRef ts s else s in
  let (id, s2) := requestAnimationFrame s1 in
  setAnimRef (Some id) s2.

Definition stopPreview (s : Page) : Page :=
  setAnimRef None (cancelPending s).

(** [recorder.ondataavailable]. *)
Definition ondataavailable (size : nat) (s : Page) : Page :=
  if (0 <? size)%nat then setChunksRef (chunksRef s ++ [size]) s else s.

(** [recorder.onstop]. *)
Definition onstop (s : Page) : Page :=
  let (url, s1) := createObjectURL_blob (chunksRef s) s in
  stopPreview (setIsRecording false (setDownloadUrl (Some url) s1)).

Definition startRecording (s : Page) : Page :=
  match canvasRef s, imageRef s with
  | Some _, Some _ =>
      let (recorder, s1) := newMediaRecorder s in
      let s2 := setChunksRef [] s1 in
      let s3 := setRecorderRef (Some recorder) s2 in
      let s4 := setIsRecording true s3 in
      let s5 := startPreview s4 in
      let s6 := recorder_start recorder s5 in
      setTimeout_stop recorder (durationSec s * 1000) s6
  | _, _ => s
  end.

Definition stopRecording (s : Page) : Page :=
  match recorderRef s with
  | Some r => recorder_stop r s
  | None => s
  end.

(** *** What happens to the page *)

(** React commits a render: the canvas element is mounted and sized by the
    effect on [size]; the hidden image element is there exactly when
    [imageUrl] is set. *)
Definition render (s : Page) : Page :=
  let canvas :=
    match size (aspect s) with
    | Some sz => {| canvas_width := width sz; canvas_height := height sz |}
    | None => {| canvas_width := 300; canvas_height := 150 |}
    end in
  let img :=
    match imageUrl s with
    | Some _ =>
        Some match imageRef s with
             | Some i => i
             | None => {| naturalWidth := 0; naturalHeight := 0 |}
             end
    | None => None
    end in
  setElements (Some canvas) img s.

(** The image element finishes loading: [onLoad={() => startPreview()}]. *)
Definition imageLoaded (w h : Q) (s : Page) : Page :=
  match imageRef s with
  | Some _ =>
      startPreview
        (setElements (canvasRef s)
           (Some {| naturalWidth := w; naturalHeight := h |}) s)
  | None => s
  end.

(** The browser runs the pending animation-frame callbacks. *)
Definition animationFrame (ts : Q) (s : Page) : Page :=
  fold_left (fun s' _ => loop ts s') (frameRequests s) (setFrameRequests [] s).

(** The clock reaches [now]: every timer due by then runs its callback. *)
Definition advanceTo (now : Q) (s : Page) : Page :=
  if Qltb now (clock s) then s
  else
    let due := filter (fun tm => Qle_bool (timer_due tm) now) (timers s) in
    let later :=
      filter (fun tm => negb (Qle_bool (timer_due tm) now)) (timers s) in
    fold_left (fun s' tm => recorder_stop (timer_recorder tm) s') due
      (setClock now (setTimers later s)).

(** A queued recorder [stop] event is delivered: the last data, then
    [onstop]. *)
Definition deliverStop (size : nat) (s : Page) : Page :=
  match stopEvents s with
  | [] => s
  | _ :: rest => onstop (ondataavailable size (setStopEvents rest s))
  end.

Inductive Action : Type :=
| PickFile (f : File)
| SelectAspect (a : Aspect)
| TypeDuration (d : Q)
| ClickPreview
| ClickGenerate
| ClickStop
| Render
| ImageLoaded (w h : Q)
| AnimationFrame (ts : Q)
| TimePasses (now : Q)
| RecorderStopped (size : nat).

Definition hasImage (s : Page) : bool :=
  match imageUrl s with Some _ => true | None => false end.

(** One event; a click on a disabled or absent button does nothing. *)
Definition step (a : Action) (s : Page) : Page :=
  match a with
  | PickFile f => handleFile f s
  | SelectAspect v => setAspect v s
  | TypeDuration d => setDurationSec d s
  | ClickPreview =>
      if hasImage s && negb (isRecording s) then startPreview s else s
  | ClickGenerate =>
      if negb (isRecording s) && hasImage s then startRecording s else s
  | ClickStop => if isRecording s then stopRecording s else s
  | Render => render s
  | ImageLoaded w h => imageLoaded w h s
  | AnimationFrame ts => animationFrame ts s
  | TimePasses now => advanceTo now s
  | RecorderStopped size => deliverStop size s
  end.

Definition run (acts : list Action) (s : Page) : Page :=
  fold_left (fun s' a => step a s') acts s.

(** The events that come before the instant [due]. *)
Definition before (due : Q) (a : Action) : Prop :=
  match a with
  | TimePasses now => now < due
  | _ => True
  end.

(** A recorder that was stopped while it was recording and has since
    seen [k] more [stop()] calls, each of them while inactive. *)
Definition stoppedLog (k : nat) : MediaRecorder :=
  {| state := inactive; stopCalls := recording :: repeat inactive k |}.

Definition stoppedWith (r k : nat) (s : Page) : Prop :=
  nth_error (recorders s) r = Some (stoppedLog k).

Definition isStopped (m : MediaRecorder) : Prop :=
  exists k : nat, m = stoppedLog k.

(** A recorder after [start()]: still recording and never stopped, or
    stopped as above. *)
Definition startedOrStopped (m : MediaRecorder) : Prop :=
  m = {| state := recording; stopCalls := [] |} \/ isStopped m.

(** While the instant [due] has not come: the timeout that holds recorder
    [r] is pending, and that recorder satisfies [P]. *)
Definition timeoutPending (P : MediaRecorder -> Prop) (r : nat) (due : Q)
    (s : Page) : Prop :=
  In {| timer_due := due; timer_recorder := r |} (timers s) /\
  clock s <= due /\
  exists m : MediaRecorder, nth_error (recorders s) r = Some m /\ P m.

(** The drawn image rectangle contains the whole canvas. *)
Definition covers (canvas : Canvas) (d : DrawImage) : Prop :=
  (di_dx d <= 0 /\ di_dy d <= 0 /\
   Q2R (canvas_width canvas) <= di_dx d + di_w d /\
   Q2R (canvas_height canvas) <= di_dy d + di_h d)%R.

(** Between consecutive lines the break was needed: the first word of the
    next line, added to the line before, measures more than [maxWidth]. *)
Fixpoint greedyBreaks (measureText : string -> Q) (maxWidth : Q)
    (groups : list (list string)) : Prop :=
  match groups with
  | [] => True
  | g :: rest =>
      match rest with
      | [] => True
      | [] :: _ => False
      | (word :: _) :: _ =>
          maxWidth < measureText (lineOf (g ++ [word])) /\
          greedyBreaks measureText maxWidth rest
      end
  end.

(** All the text of a list of lines. *)
Definition joinLines (lines : list string) : string :=
  fold_right append ""%string lines.

(** ** Rounded rectangle: [roundRect] *)

(** The path calls of the 2D context that [roundRect] makes. *)
Inductive PathCommand : Type :=
| beginPath
| moveTo (x y : Q)
| arcTo (x1 y1 x2 y2 radius : Q)
| closePath
| fill.

(** [Math.min(r, w / 2, h / 2)]. *)
Definition radii (w h r : Q) : Q := Qmin (Qmin r (w / 2)) (h / 2).

Definition roundRect (x y w h r : Q) : list PathCommand :=
  let radii := radii w h r in
  [ beginPath;
    moveTo (x + radii) y;
    arcTo (x + w) y (x + w) (y + h) radii;
    arcTo (x + w) (y + h) x (y + h) radii;
    arcTo x (y + h) x y radii;
    arcTo x y (x + w) y radii;
    closePath;
    fill ].

(** [roundRect(ctx, ctaX, ctaY, ctaW, ctaH, 10)] for the pill. *)
Definition ctaPath (pill : CtaPill) : list PathCommand :=
  roundRect (cta_x pill) (cta_y pill) (cta_w pill) (cta_h pill) 10.

(** The radius of an [arcTo] of the path. *)
Definition arcRadius (c : PathCommand) : option Q :=
  match c with
  | arcTo _ _ _ _ radius => Some radius
  | _ => None
  end.

(** ** Pages the events lead to *)

Definition reachable (s : Page) : Prop :=
  exists acts : list Action, s = run acts initialPage.

(** At most one animation-frame request is pending, the one [animRef]
    holds; handles are positive. *)
Definition oneLoop (s : Page) : Prop :=
  frameRequests s = match animRef s with Some id => [id] | None => [] end /\
  (forall id : nat, animRef s = Some id -> (0 < id)%nat) /\
  (0 < nextId s)%nat.

(** No empty chunk is kept, nor published in the download URL; the image
    URL is the URL of a file. *)
Definition chunksKept (s : Page) : Prop :=
  Forall (fun size => (0 < size)%nat) (chunksRef s) /\
  match downloadUrl s with
  | Some (UrlOfBlob _ chunks) => Forall (fun size => (0 < size)%nat) chunks
  | Some (UrlOfFile _ _) => False
  | None => True
  end /\
  match imageUrl s with
  | Some (UrlOfBlob _ _) => False
  | _ => True
  end.

(** The canvas has the frame size of aspect [a]. *)
Definition canvasFor (a : Aspect) (c : Canvas) : Prop :=
  size a = Some {| width := canvas_width c; height := canvas_height c |}.

(** A mounted canvas has the frame size of one of the aspects. *)
Definition canvasSized (s : Page) : Prop :=
  match canvasRef s with
  | Some c => exists a : Aspect, canvasFor a c
  | None => True
  end.

(** * Properties *)

(** ** Numbers *)

Lemma Qltb_lt (a b : Q) : Qltb a b = true <-> a < b.
Proof.
  unfold Qltb. rewrite negb_true_iff.
  split; intro H.
  - apply Qnot_le_lt. intro Hle. apply Qle_bool_iff in Hle. congruence.
  - destruct (Qle_bool b a) eqn:E; [|reflexivity].
    apply Qle_bool_iff in E. exfalso. apply (Qlt_not_le _ _ H E).
Qed.

Lemma Qltb_ge (a b : Q) : Qltb a b = false <-> b <= a.
Proof.
  unfold Qltb. rewrite negb_false_iff. apply Qle_bool_iff.
Qed.

Lemma Math_pow_3 (x : Q) : Math_pow x 3 == x * x * x.
Proof. unfold Math_pow. simpl. ring. Qed.

Lemma sq_le (a b : Q) : 0 <= a -> a <= b -> a * a <= b * b.
Proof.
  intros Ha Hab.
  apply Qle_trans with (a * b).
  - rewrite (Qmult_comm a b). apply Qmult_le_compat_r; assumption.
  - apply Qmult_le_compat_r; [assumption | lra].
Qed.

Lemma cube_le (a b : Q) : 0 <= a -> a <= b -> a * a * a <= b * b * b.
Proof.
  intros Ha Hab.
  apply Qle_trans with (a * a * b).
  - rewrite (Qmult_comm (a * a) a), (Qmult_comm (a * a) b).
    apply Qmult_le_compat_r; [assumption|].
    apply Qmult_le_0_compat; assumption.
  - apply Qmult_le_compat_r; [apply sq_le; assumption | lra].
Qed.

Lemma Qmin_le_mono (a b c : Q) : a <= b -> Qmin a c <= Qmin b c.
Proof. intro H. apply Q.min_le_compat_r. exact H. Qed.

Lemma Qdiv_le_mono (a b d : Q) : 0 < d -> a <= b -> a / d <= b / d.
Proof.
  intros Hd Hab. unfold Qdiv. apply Qmult_le_compat_r; [exact Hab|].
  apply Qlt_le_weak, Qinv_lt_0_compat, Hd.
Qed.

Lemma Qdiv_nonneg (a d : Q) : 0 < d -> 0 <= a -> 0 <= a / d.
Proof.
  intros Hd Ha. unfold Qdiv. apply Qmult_le_0_compat; [exact Ha|].
  apply Qlt_le_weak, Qinv_lt_0_compat, Hd.
Qed.

(** Normalized progress stays in the unit interval. *)
Lemma t_unit_interval (elapsed durationSec : Q) :
  0 < durationSec -> 0 <= elapsed ->
  0 <= DrawFrame.t elapsed durationSec <= 1.
Proof.
  intros Hd He. unfold DrawFrame.t. split.
  - apply Q.min_glb; [apply Qdiv_nonneg; assumption | lra].
  - apply Q.le_min_r.
Qed.

Lemma t_mono (e1 e2 durationSec : Q) :
  0 < durationSec -> e1 <= e2 ->
  DrawFrame.t e1 durationSec <= DrawFrame.t e2 durationSec.
Proof.
  intros Hd He. unfold DrawFrame.t.
  apply Qmin_le_mono, Qdiv_le_mono; assumption.
Qed.

(** ** Frame size *)

(** C7: the frame is 540 wide and [round(540 / ratio)] high, that is
    540 x 960 for "9:16" and 540 x 675 for "4:5". *)
Theorem constrainSize_frame_sizes :
  (forall a : Aspect, exists p : ParsedAspect,
      parseAspect a = Some p /\
      ratio p = w p / h p /\
      constrainSize a 540 =
        Some {| width := 540; height := Math_round (540 / ratio p) |}) /\
  constrainSize Aspect_9_16 540 = Some {| width := 540; height := 960 |} /\
  constrainSize Aspect_4_5 540 = Some {| width := 540; height := 675 |}.
Proof.
  split; [|split; reflexivity].
  intros [|]; eexists; (split; [reflexivity|]); split; reflexivity.
Qed.

(** ** Camera zoom *)

(** C6: on [0,1] the zoom is [1.05 + 0.12 * t], stays within
    [1.05, 1.17] and never decreases as [t] grows. *)
Theorem zoom_linear_bounded_monotone (t : Q) :
  0 <= t <= 1 ->
  DrawFrame.zoom t == 1.05 + 0.12 * t /\
  1.05 <= DrawFrame.zoom t /\
  DrawFrame.zoom t <= 1.17 /\
  (forall t' : Q, 0 <= t' <= 1 -> t <= t' ->
     DrawFrame.zoom t <= DrawFrame.zoom t').
Proof.
  intros [H0 H1]. unfold DrawFrame.zoom.
  repeat split; try lra.
  intros t' _ Hle. lra.
Qed.

Lemma zoom_linear_bounded_monotone_witness :
  0 <= DrawFrame.t 15 60 <= 1 /\
  DrawFrame.zoom (DrawFrame.t 15 60) == 1.08 /\
  DrawFrame.zoom (DrawFrame.t 15 60) <= DrawFrame.zoom 1.
Proof.
  assert (Ht : 0 <= DrawFrame.t 15 60 <= 1)
    by (apply t_unit_interval; reflexivity || discriminate).
  destruct (zoom_linear_bounded_monotone (DrawFrame.t 15 60) Ht)
    as (_ & _ & _ & Hmono).
  split; [exact Ht|]. split; [reflexivity|].
  apply Hmono; [split; discriminate | apply Ht].
Defined.

(** ** Headline opacity *)

Lemma ease_cube (x : Q) : DrawFrame.ease x == 1 - (1 - x) * (1 - x) * (1 - x).
Proof. unfold DrawFrame.ease. rewrite Math_pow_3. reflexivity. Qed.

#[local] Instance ease_wd : Proper (Qeq ==> Qeq) DrawFrame.ease.
Proof. intros x y H. rewrite !ease_cube, H. reflexivity. Qed.

Lemma ease_le_1 (x : Q) : x <= 1 -> DrawFrame.ease x <= 1.
Proof.
  intro H. rewrite ease_cube.
  assert (H0 : 0 * 0 * 0 <= (1 - x) * (1 - x) * (1 - x))
    by (apply cube_le; lra).
  lra.
Qed.

Lemma ease_mono (x y : Q) :
  x <= y -> y <= 1 -> DrawFrame.ease x <= DrawFrame.ease y.
Proof.
  intros Hxy Hy. rewrite !ease_cube.
  assert (H : (1 - y) * (1 - y) * (1 - y) <= (1 - x) * (1 - x) * (1 - x))
    by (apply cube_le; lra).
  lra.
Qed.

(** C5: for a duration in [5,60] the headline opacity is 0 at 0 s, is 1
    from 2 s on, is the ease-out cubic of [min(elapsed/2, 1)] while the
    normalized progress is below 0.05, and never decreases with the
    elapsed time. *)
Theorem headline_opacity_profile (durationSec : Q) :
  5 <= durationSec <= 60 ->
  let headAlphaAt (elapsed : Q) :=
    DrawFrame.headAlpha elapsed (DrawFrame.t elapsed durationSec) in
  headAlphaAt 0 == 0 /\
  (forall elapsed : Q, 2 <= elapsed -> headAlphaAt elapsed == 1) /\
  (forall elapsed : Q,
      0 <= elapsed -> DrawFrame.t elapsed durationSec < 0.05 ->
      headAlphaAt elapsed == 1 - (1 - Qmin (elapsed / 2) 1) ^ 3) /\
  (forall e1 e2 : Q, 0 <= e1 -> e1 <= e2 -> headAlphaAt e1 <= headAlphaAt e2).
Proof.
  intros [Hlo Hhi] headAlphaAt. subst headAlphaAt. cbv beta.
  assert (Hd : 0 < durationSec) by lra.
  split; [|split; [|split]].
  - unfold DrawFrame.headAlpha.
    assert (Ht : DrawFrame.t 0 durationSec < 0.05).
    { unfold DrawFrame.t.
      apply Qle_lt_trans with (0 / durationSec); [apply Q.le_min_l|].
      unfold Qdiv. rewrite Qmult_0_l. reflexivity. }
    apply Qltb_lt in Ht. rewrite Ht.
    assert (Hm : Qmin (0 / 2) 1 == 0) by reflexivity.
    rewrite Hm. reflexivity.
  - intros elapsed He. unfold DrawFrame.headAlpha.
    destruct (Qltb (DrawFrame.t elapsed durationSec) 0.05); [|reflexivity].
    assert (Hm : Qmin (elapsed / 2) 1 == 1).
    { apply Q.min_r. apply Qle_shift_div_l; [reflexivity | lra]. }
    rewrite Hm. reflexivity.
  - intros elapsed _ Ht. unfold DrawFrame.headAlpha.
    apply Qltb_lt in Ht. rewrite Ht. reflexivity.
  - intros e1 e2 H0 H12. unfold DrawFrame.headAlpha.
    destruct (Qltb (DrawFrame.t e2 durationSec) 0.05) eqn:E2.
    + apply Qltb_lt in E2.
      assert (E1 : DrawFrame.t e1 durationSec < 0.05).
      { apply Qle_lt_trans with (DrawFrame.t e2 durationSec);
          [apply t_mono; assumption | exact E2]. }
      apply Qltb_lt in E1. rewrite E1.
      apply ease_mono; [|apply Q.le_min_r].
      apply Qmin_le_mono, Qdiv_le_mono; [reflexivity | exact H12].
    + destruct (Qltb (DrawFrame.t e1 durationSec) 0.05).
      * apply ease_le_1, Q.le_min_r.
      * apply Qle_refl.
Qed.

Lemma headline_opacity_profile_witness :
  5 <= 60 <= 60 /\
  DrawFrame.headAlpha 0 (DrawFrame.t 0 60) == 0 /\
  DrawFrame.headAlpha 1 (DrawFrame.t 1 60) == 7 # 8 /\
  DrawFrame.headAlpha 1 (DrawFrame.t 1 60)
    <= DrawFrame.headAlpha 2 (DrawFrame.t 2 60).
Proof.
  assert (Hd : 5 <= 60 <= 60) by (split; discriminate).
  destruct (headline_opacity_profile 60 Hd) as (H0 & _ & _ & Hmono).
  split; [exact Hd|]. split; [exact H0|]. split; [reflexivity|].
  apply Hmono; discriminate.
Defined.

(** ** Call-to-action pill *)

Lemma ctaAlpha_zero (elapsed : Q) :
  elapsed <= 12 -> DrawFrame.ctaAlpha elapsed == 0.
Proof.
  intro H. unfold DrawFrame.ctaAlpha, DrawFrame.ctaAppear.
  assert (Hneg : (elapsed - 12) / 1.5 <= 0).
  { apply Qle_shift_div_r; [reflexivity | lra]. }
  rewrite (Q.max_r _ _ Hneg). apply Q.min_l. discriminate.
Qed.

Lemma ctaPill_hidden (measureText : string -> string -> Q) (canvas : Canvas)
    (elapsed : Q) :
  elapsed <= 12 -> ctaPill_at measureText canvas elapsed = None.
Proof.
  intro H. unfold ctaPill_at.
  assert (E : Qgtb (DrawFrame.ctaAlpha elapsed) 0 = false).
  { apply Qltb_ge. rewrite (ctaAlpha_zero _ H). apply Qle_refl. }
  rewrite E. reflexivity.
Qed.

(** C9: the pill's opacity is [min(max((elapsed - 12) / 1.5, 0), 1)], a
    function of the elapsed seconds alone: whatever the duration, a frame
    drawn before 12 s has opacity 0 and no pill, and with a duration of at
    most 12 s no frame within the duration shows the pill. *)
Theorem cta_opacity_absolute_time (measureText : string -> string -> Q)
    (canvas : Canvas) (img : Image) (startTime durationSec now : Q) :
  let elapsed := DrawFrame.elapsed now startTime in
  DrawFrame.ctaAlpha elapsed == Qmin (Qmax ((elapsed - 12) / 1.5) 0) 1 /\
  (elapsed < 12 ->
     DrawFrame.ctaAlpha elapsed == 0 /\
     option_map frame_cta
       (drawFrame measureText (Some canvas) (Some img)
          startTime durationSec now) = Some None) /\
  (5 <= durationSec <= 60 -> durationSec <= 12 ->
     0 <= elapsed <= durationSec ->
     DrawFrame.ctaAlpha elapsed == 0 /\
     option_map frame_cta
       (drawFrame measureText (Some canvas) (Some img)
          startTime durationSec now) = Some None).
Proof.
  intro elapsed. split; [reflexivity|].
  split.
  - intro H. split; [apply ctaAlpha_zero; lra|].
    cbn. f_equal. apply ctaPill_hidden. fold elapsed. lra.
  - intros _ Hd [_ He]. split; [apply ctaAlpha_zero; lra|].
    cbn. f_equal. apply ctaPill_hidden. fold elapsed. lra.
Qed.

Lemma cta_opacity_absolute_time_witness :
  DrawFrame.elapsed 11000 1000 < 12 /\
  5 <= 10 <= 60 /\ 10 <= 12 /\ 0 <= DrawFrame.elapsed 11000 1000 <= 10 /\
  DrawFrame.ctaAlpha (DrawFrame.elapsed 11000 1000) == 0 /\
  option_map frame_cta
    (drawFrame (fun _ s => inject_Z (Z.of_nat (String.length s)))
       (Some {| canvas_width := 540; canvas_height := 960 |})
       (Some {| naturalWidth := 1920; naturalHeight := 1080 |})
       1000 10 11000) = Some None.
Proof.
  assert (H1 : DrawFrame.elapsed 11000 1000 < 12) by reflexivity.
  assert (H2 : 5 <= 10 <= 60) by (split; discriminate).
  assert (H3 : 10 <= 12) by discriminate.
  assert (H4 : 0 <= DrawFrame.elapsed 11000 1000 <= 10)
    by (split; discriminate).
  destruct (cta_opacity_absolute_time
              (fun _ s => inject_Z (Z.of_nat (String.length s)))
              {| canvas_width := 540; canvas_height := 960 |}
              {| naturalWidth := 1920; naturalHeight := 1080 |}
              1000 10 11000) as (_ & _ & H).
  destruct (H H2 H3 H4) as [Ha Hp].
  repeat split; try assumption; try discriminate.
Defined.

(** ** Lists of browser objects *)

Lemma update_length {A : Type} (f : A -> A) (l : list A) (i : nat) :
  length (update i f l) = length l.
Proof.
  revert i. induction l as [|x l IH]; intros [|i]; simpl; auto.
Qed.

Lemma nth_error_update {A : Type} (f : A -> A) (l : list A) (i j : nat) :
  nth_error (update i f l) j =
  if Nat.eqb i j then option_map f (nth_error l j) else nth_error l j.
Proof.
  revert i j. induction l as [|x l IH]; intros [|i] [|j]; simpl; auto.
  - destruct (Nat.eqb i j); reflexivity.
Qed.

Lemma update_last {A : Type} (f : A -> A) (l : list A) (x : A) :
  update (length l) f (l ++ [x]) = l ++ [f x].
Proof. induction l as [|y l IH]; simpl; [reflexivity | now rewrite IH]. Qed.

Lemma nth_error_last {A : Type} (l : list A) (x : A) :
  nth_error (l ++ [x]) (length l) = Some x.
Proof. induction l as [|y l IH]; simpl; auto. Qed.

(** ** Wrapping the empty text *)

(** C4, as the code has it: wrapping the empty string draws exactly one
    line, at the start position, and that line is a single space (the
    empty word followed by the space the loop appends to every word),
    whatever the width limit and the measure. *)
Theorem wrapText_empty_text (measureText : string -> Q)
    (x y maxWidth lineHeight : Q) :
  wrapText measureText "" x y maxWidth lineHeight =
  [ {| ft_text := " "; ft_x := x; ft_y := y |} ].
Proof.
  unfold wrapText. simpl. rewrite andb_false_r. reflexivity.
Qed.

(** C4 as stated fails: the one line is not the empty string. *)
Lemma wrapText_empty_text_not_empty_line :
  map ft_text (wrapText (fun _ => 0) "" 16 800 508 28) = [" "%string] /\
  map ft_text (wrapText (fun _ => 0) "" 16 800 508 28) <> [""%string].
Proof. split; [reflexivity | discriminate]. Qed.

(** ** Picking a file *)

(** C10: [handleFile] sets the image URL to the new object URL of the
    file and clears the download URL; the aspect, the duration and the
    recording flag stay as they were. *)
Theorem handleFile_effect (f : File) (s : Page) :
  imageUrl (handleFile f s) = Some (fst (createObjectURL_file f s)) /\
  fst (createObjectURL_file f s) = UrlOfFile (nextId s) f /\
  downloadUrl (handleFile f s) = None /\
  aspect (handleFile f s) = aspect s /\
  durationSec (handleFile f s) = durationSec s /\
  isRecording (handleFile f s) = isRecording s.
Proof. repeat split. Qed.

(** ** Starting a recording *)

(** C2, as the code has it: [startRecording] checks only that the canvas
    and the image element are there.  Without one of them it returns with
    the page unchanged; with both it starts the recorder whatever
    [durationSec] is: the flag is set, a new recorder is recording, and
    its stop is scheduled [durationSec * 1000] ms ahead. *)
Theorem startRecording_checks_elements_only (s : Page) :
  match canvasRef s, imageRef s with
  | Some _, Some _ =>
      let s' := startRecording s in
      let r := length (recorders s) in
      isRecording s' = true /\
      recorderRef s' = Some r /\
      nth_error (recorders s') r
        = Some {| state := recording; stopCalls := [] |} /\
      chunksRef s' = [] /\
      durationSec s' = durationSec s /\
      timers s' =
        timers s ++ [ {| timer_due := clock s + Qmax (durationSec s * 1000) 0;
                         timer_recorder := r |} ]
  | _, _ => startRecording s = s
  end.
Proof.
  destruct s as [iu a d ir du [c|] [i|] rr ch st [[|id]|] ck rs ts se fr nx];
    try reflexivity;
    cbn -[Qmax Qmult Qplus update nth_error];
    rewrite update_last, nth_error_last; repeat split.
Qed.

(** C2 as stated fails: with an image loaded, durations of 3 s and of
    120 s are accepted and the recorder starts. *)
Lemma startRecording_accepts_any_duration :
  let ready :=
    run [PickFile 7%nat; Render; ImageLoaded 1920 1080] initialPage in
  let short := step (TypeDuration 3) ready in
  let long := step (TypeDuration 120) ready in
  (durationSec short = 3 /\ isRecording short = false /\
   isRecording (startRecording short) = true /\
   recorders (startRecording short)
     = [ {| state := recording; stopCalls := [] |} ] /\
   timers (startRecording short)
     = [ {| timer_due := 3000; timer_recorder := 0 |} ]) /\
  (durationSec long = 120 /\ isRecording long = false /\
   isRecording (startRecording long) = true /\
   recorders (startRecording long)
     = [ {| state := recording; stopCalls := [] |} ] /\
   timers (startRecording long)
     = [ {| timer_due := 120000; timer_recorder := 0 |} ]).
Proof. vm_compute. repeat split. Qed.

(** ** Word wrap *)

Lemma string_app_assoc (a b c : string) :
  ((a ++ b) ++ c = a ++ (b ++ c))%string.
Proof. induction a as [|ch a IH]; simpl; [reflexivity | now rewrite IH]. Qed.

Lemma string_app_nil_r (a : string) : (a ++ "" = a)%string.
Proof. induction a as [|ch a IH]; simpl; [reflexivity | now rewrite IH]. Qed.

Lemma string_length_app (a b : string) :
  String.length (a ++ b) = (String.length a + String.length b)%nat.
Proof. induction a as [|ch a IH]; simpl; [reflexivity | now rewrite IH]. Qed.

Lemma lineOf_single (word : string) : lineOf [word] = (word ++ " ")%string.
Proof. simpl. apply string_app_nil_r. Qed.

Lemma lineOf_app (g1 g2 : list string) :
  lineOf (g1 ++ g2) = (lineOf g1 ++ lineOf g2)%string.
Proof.
  induction g1 as [|word g1 IH]; simpl; [reflexivity|].
  rewrite IH. symmetry. apply string_app_assoc.
Qed.

Lemma lineOf_snoc (g : list string) (word : string) :
  ((lineOf g ++ word) ++ " ")%string = lineOf (g ++ [word]).
Proof.
  now rewrite lineOf_app, lineOf_single, string_app_assoc.
Qed.

Lemma split_nonempty (sep : ascii) (s : string) : split sep s <> [].
Proof.
  destruct s as [|c s]; simpl; [discriminate|].
  destruct (Ascii.eqb c sep); [discriminate|].
  destruct (split sep s); discriminate.
Qed.

Section WrapText.

Variable measureText : string -> Q.
Variables x maxWidth lineHeight : Q.

Lemma fits_single (word : string) : fits measureText maxWidth [word].
Proof.
  destruct (Qlt_le_dec maxWidth (measureText (word ++ " ")%string)) as [H|H].
  - right. exists word. split; [reflexivity | exact H].
  - left. rewrite lineOf_single. exact H.
Qed.

(** The lines [wrapText] draws are the lines of [wrapWords]. *)
Lemma wrapText_loop_lines (words : list string) :
  forall (n : nat) (current : list string) (currentY : Q),
    map ft_text
      (wrapText_loop measureText x maxWidth lineHeight n words
         (lineOf current) currentY)
    = map lineOf (wrapWords_loop measureText maxWidth n words current).
Proof.
  induction words as [|word rest IH]; intros n current currentY; simpl.
  - reflexivity.
  - rewrite lineOf_snoc.
    destruct (Qgtb (measureText (lineOf (current ++ [word]))) maxWidth
              && (0 <? n)%nat); simpl.
    + f_equal. rewrite <- lineOf_single. apply IH.
    + apply IH.
Qed.

Lemma wrapWords_loop_concat (words : list string) :
  forall (n : nat) (current : list string),
    concat (wrapWords_loop measureText maxWidth n words current)
    = current ++ words.
Proof.
  induction words as [|word rest IH]; intros n current; simpl.
  - now rewrite !app_nil_r.
  - destruct (_ && _); simpl; rewrite IH.
    + reflexivity.
    + now rewrite <- app_assoc.
Qed.

Lemma wrapWords_loop_nonempty (words : list string) :
  forall (n : nat) (current : list string),
    current <> [] ->
    Forall (fun g => g <> [])
      (wrapWords_loop measureText maxWidth n words current).
Proof.
  induction words as [|word rest IH]; intros n current Hc; simpl.
  - constructor; [exact Hc | constructor].
  - destruct (_ && _).
    + constructor; [exact Hc | apply IH; discriminate].
    + apply IH. destruct current; discriminate.
Qed.

Lemma wrapWords_loop_fits (words : list string) :
  forall (n : nat) (current : list string),
    (0 < n)%nat -> fits measureText maxWidth current ->
    Forall (fits measureText maxWidth)
      (wrapWords_loop measureText maxWidth n words current).
Proof.
  induction words as [|word rest IH]; intros n current Hn Hc; simpl.
  - constructor; [exact Hc | constructor].
  - destruct (Qgtb _ _) eqn:E; simpl.
    + apply Nat.ltb_lt in Hn. rewrite Hn.
      constructor; [exact Hc|].
      apply IH; [lia | apply fits_single].
    + apply IH; [lia|]. left. apply Qltb_ge in E. exact E.
Qed.

Lemma monotone_word_le_line (g : list string) (word : string) :
  monotone measureText -> In word g ->
  measureText (word ++ " ")%string <= measureText (lineOf g).
Proof.
  intros Hm Hin. apply in_split in Hin. destruct Hin as (g1 & g2 & ->).
  rewrite lineOf_app. simpl.
  apply Qle_trans with (measureText ((word ++ " ") ++ lineOf g2)%string).
  - apply (Hm (word ++ " ")%string (lineOf g2)).
  - apply (Hm (lineOf g1)).
Qed.

End WrapText.

(** C3, as the code has it.  The lines drawn hold the words of the text in
    order, each whole and followed by one space, and no line is without a
    word.  Every line has measured width at most [maxWidth], except a
    line of a single word that, with its space, measures more than
    [maxWidth].  When no string measures less than a part of it, every
    word that is too wide in that sense is alone on its line. *)
Theorem wrapText_line_widths (measureText : string -> Q) (text : string)
    (x y maxWidth lineHeight : Q) :
  let groups := wrapWords measureText text maxWidth in
  map ft_text (wrapText measureText text x y maxWidth lineHeight)
    = map lineOf groups /\
  concat groups = split " " text /\
  Forall (fun g => g <> []) groups /\
  Forall (fun g =>
            measureText (lineOf g) <= maxWidth \/
            exists word : string,
              g = [word] /\ maxWidth < measureText (word ++ " ")%string)
         groups /\
  (monotone measureText ->
   Forall (fun g =>
             forall word : string,
               In word g -> maxWidth < measureText (word ++ " ")%string ->
               g = [word])
          groups).
Proof.
  intro groups. subst groups. unfold wrapWords, wrapText.
  assert (Hfits : Forall (fits measureText maxWidth)
                    (wrapWords_loop measureText maxWidth 0
                       (split " " text) [])).
  { pose proof (split_nonempty " " text) as Hne.
    destruct (split " " text) as [|word rest]; [congruence|].
    simpl. rewrite andb_false_r.
    apply wrapWords_loop_fits; [lia | apply fits_single]. }
  split;
    [apply (wrapText_loop_lines measureText x maxWidth lineHeight _ 0 [])|].
  split; [apply wrapWords_loop_concat|].
  split.
  { pose proof (split_nonempty " " text) as Hne.
    destruct (split " " text) as [|word rest]; [congruence|].
    simpl. rewrite andb_false_r.
    apply wrapWords_loop_nonempty. discriminate. }
  split; [exact Hfits|].
  intro Hm. eapply Forall_impl; [|exact Hfits].
  intros g [Hle | (word' & -> & _)] word Hin Hwide.
  - exfalso. apply (Qlt_not_le _ _ Hwide).
    apply Qle_trans with (measureText (lineOf g)); [|exact Hle].
    apply monotone_word_le_line; assumption.
  - destruct Hin as [-> | []]. reflexivity.
Qed.

Lemma length_monotone :
  monotone (fun s => inject_Z (Z.of_nat (String.length s))).
Proof.
  intros a b. rewrite string_length_app, Nat2Z.inj_add.
  rewrite <- !Zle_Qle. lia.
Qed.

Lemma wrapText_line_widths_witness :
  let measureText := fun s => inject_Z (Z.of_nat (String.length s)) in
  monotone measureText /\
  map ft_text (wrapText measureText "aa bbbbbbbb c" 16 800 5 28)
    = [ "aa "; "bbbbbbbb "; "c " ]%string /\
  Forall (fun g =>
            forall word : string,
              In word g -> 5 < measureText (word ++ " ")%string -> g = [word])
         (wrapWords measureText "aa bbbbbbbb c" 5).
Proof.
  intro measureText.
  destruct (wrapText_line_widths measureText "aa bbbbbbbb c" 16 800 5 28)
    as (_ & _ & _ & _ & Halone).
  split; [exact length_monotone|].
  split; [reflexivity|].
  exact (Halone length_monotone).
Defined.

(** C3 as stated fails in two ways.  The loop measures and draws every
    line with its trailing space, so measuring by length with a limit of
    3 the line "abc " is too wide although its only word, "abc", is not.
    And under a measure that shrinks when text is appended, a word wider
    than the limit stays on a line with its neighbour. *)
Lemma wrapText_line_widths_counterexample :
  let len := fun s => inject_Z (Z.of_nat (String.length s)) in
  let odd := fun s =>
    if (String.eqb s "big" || String.eqb s "big ")%bool then 10 else 0 in
  (map ft_text (wrapText len "abc de" 16 800 3 28) = [ "abc "; "de " ]%string /\
   len "abc"%string <= 3 /\ 3 < len "abc "%string) /\
  (map ft_text (wrapText odd "big x" 16 800 5 28) = [ "big x " ]%string /\
   5 < odd "big"%string /\ 5 < odd "big "%string).
Proof.
  cbv zeta. split; (split; [reflexivity|]); split; reflexivity || discriminate.
Qed.

(** ** The scheduled stop *)

(** What the timers and recorders see of the page. *)
Lemma recorder_stop_fields (r : nat) (s : Page) :
  recorders (recorder_stop r s) = update r stopped (recorders s) /\
  timers (recorder_stop r s) = timers s /\
  clock (recorder_stop r s) = clock s.
Proof.
  unfold recorder_stop.
  destruct (nth_error (recorders s) r) as [m|] eqn:E.
  - destruct (state m); repeat split.
  - repeat split. simpl.
    clear -E. revert r E.
    induction (recorders s) as [|y l IH]; intros [|r] E; simpl in *;
      try reflexivity; try discriminate.
    f_equal. apply IH, E.
Qed.

Lemma startPreview_fields (s : Page) :
  recorders (startPreview s) = recorders s /\
  timers (startPreview s) = timers s /\
  clock (startPreview s) = clock s.
Proof.
  unfold startPreview, cancelPending.
  destruct (canvasRef s), (imageRef s); try (repeat split; fail).
  destruct (animRef s) as [[|id]|]; repeat split.
Qed.

Lemma stopPreview_fields (s : Page) :
  recorders (stopPreview s) = recorders s /\
  timers (stopPreview s) = timers s /\
  clock (stopPreview s) = clock s.
Proof.
  unfold stopPreview, cancelPending.
  destruct (animRef s) as [[|id]|]; repeat split.
Qed.

Lemma loop_fields (ts : Q) (s : Page) :
  recorders (loop ts s) = recorders s /\
  timers (loop ts s) = timers s /\
  clock (loop ts s) = clock s.
Proof.
  unfold loop. destruct (Qeq_bool (startTimeRef s) 0); repeat split.
Qed.

Lemma animationFrame_fields (ts : Q) (s : Page) :
  recorders (animationFrame ts s) = recorders s /\
  timers (animationFrame ts s) = timers s /\
  clock (animationFrame ts s) = clock s.
Proof.
  unfold animationFrame.
  change (recorders s) with (recorders (setFrameRequests [] s)).
  change (timers s) with (timers (setFrameRequests [] s)).
  change (clock s) with (clock (setFrameRequests [] s)).
  generalize (setFrameRequests [] s) as s0.
  induction (frameRequests s) as [|id l IH]; intro s0; simpl.
  - repeat split.
  - destruct (IH (loop ts s0)) as (Hr & Ht & Hc).
    destruct (loop_fields ts s0) as (Hr' & Ht' & Hc').
    rewrite Hr, Ht, Hc, Hr', Ht', Hc'. repeat split.
Qed.

Lemma startRecording_fields (s : Page) :
  canvasRef s <> None -> imageRef s <> None ->
  recorders (startRecording s)
    = recorders s ++ [ {| state := recording; stopCalls := [] |} ] /\
  timers (startRecording s)
    = timers s ++ [ {| timer_due := clock s + Qmax (durationSec s * 1000) 0;
                       timer_recorder := length (recorders s) |} ] /\
  clock (startRecording s) = clock s /\
  recorderRef (startRecording s) = Some (length (recorders s)).
Proof.
  destruct s as [iu a d ir du [c|] [i|] rr ch st [[|id]|] ck rs ts se fr nx];
    intros Hc Hi; simpl in Hc, Hi; try congruence;
    cbn -[Qmax Qmult Qplus update];
    rewrite update_last; repeat split.
Qed.

Lemma repeat_snoc {A : Type} (a : A) (k : nat) :
  repeat a k ++ [a] = repeat a (S k).
Proof. induction k as [|k IH]; simpl; [reflexivity | now rewrite IH]. Qed.

Lemma stopped_stoppedLog (k : nat) :
  stopped (stoppedLog k) = stoppedLog (S k).
Proof. unfold stopped, stoppedLog. simpl. now rewrite repeat_snoc. Qed.

Lemma isStopped_stopped (m : MediaRecorder) :
  isStopped m -> isStopped (stopped m).
Proof. intros [k ->]. exists (S k). apply stopped_stoppedLog. Qed.

Lemma startedOrStopped_stopped (m : MediaRecorder) :
  startedOrStopped m -> isStopped (stopped m).
Proof.
  intros [-> | H]; [exists 0%nat; reflexivity | apply isStopped_stopped, H].
Qed.

Section ScheduledStop.

Variable r : nat.

Lemma recorder_stop_stoppedWith (r' k : nat) (s : Page) :
  stoppedWith r k s ->
  stoppedWith r (if Nat.eqb r' r then S k else k) (recorder_stop r' s).
Proof.
  unfold stoppedWith. intro H.
  destruct (recorder_stop_fields r' s) as (Hr & _ & _).
  rewrite Hr, nth_error_update, H.
  destruct (Nat.eqb r' r); [|reflexivity].
  simpl. now rewrite stopped_stoppedLog.
Qed.

(** Running the callbacks of the timers [due]: every callback on
    recorder [r] adds a [stop()] call on the inactive recorder. *)
Lemma fire_all (due : list Timer) :
  forall (s : Page) (k : nat),
    stoppedWith r k s ->
    let s' :=
      fold_left (fun s' tm => recorder_stop (timer_recorder tm) s') due s in
    timers s' = timers s /\ clock s' = clock s /\
    exists k' : nat,
      (k <= k')%nat /\
      ((exists tm, In tm due /\ timer_recorder tm = r) -> (k < k')%nat) /\
      stoppedWith r k' s'.
Proof.
  induction due as [|tm due IH]; intros s k H; simpl.
  - repeat split. exists k. repeat split; [lia | | exact H].
    intros (tm & [] & _).
  - pose proof (recorder_stop_stoppedWith (timer_recorder tm) k s H) as H1.
    destruct (recorder_stop_fields (timer_recorder tm) s) as (_ & Ht & Hc).
    destruct (IH _ _ H1) as (Ht' & Hc' & k' & Hle & Hlt & Hk').
    rewrite Ht', Hc', Ht, Hc. repeat split.
    exists k'. split; [|split; [|exact Hk']].
    + destruct (Nat.eqb (timer_recorder tm) r); lia.
    + intros (tm' & [<- | Hin] & Hr).
      * rewrite Hr, Nat.eqb_refl in Hle. lia.
      * assert (k' > (if Nat.eqb (timer_recorder tm) r then S k else k))%nat
          by (apply Hlt; exists tm'; split; assumption).
        destruct (Nat.eqb (timer_recorder tm) r); lia.
Qed.

Variable due : Q.

(** What is known of recorder [r]; a [stop()] call keeps it. *)
Variable P : MediaRecorder -> Prop.
Hypothesis P_stopped : forall m : MediaRecorder, P m -> P (stopped m).

Lemma timeoutPending_fields (s s' : Page) :
  recorders s' = recorders s /\ timers s' = timers s /\ clock s' = clock s ->
  timeoutPending P r due s -> timeoutPending P r due s'.
Proof.
  intros (Hr & Ht & Hc) (Hin & Hck & m & Hm & HP).
  unfold timeoutPending. rewrite Hr, Ht, Hc. eauto.
Qed.

Lemma timeoutPending_stop (r' : nat) (s : Page) :
  timeoutPending P r due s -> timeoutPending P r due (recorder_stop r' s).
Proof.
  intros (Hin & Hck & m & Hm & HP).
  destruct (recorder_stop_fields r' s) as (Hr & Ht & Hc).
  unfold timeoutPending. rewrite Hr, Ht, Hc, nth_error_update, Hm.
  repeat split; try assumption.
  destruct (Nat.eqb r' r); simpl; eauto.
Qed.

Lemma timeoutPending_startRecording (s : Page) :
  timeoutPending P r due s -> timeoutPending P r due (startRecording s).
Proof.
  intros Hp.
  destruct (canvasRef s) as [c|] eqn:Ec;
    [|unfold startRecording; rewrite Ec; exact Hp].
  destruct (imageRef s) as [i|] eqn:Ei;
    [|unfold startRecording; rewrite Ec, Ei; exact Hp].
  destruct (startRecording_fields s) as (Hr & Ht & Hc & _);
    [congruence | congruence |].
  destruct Hp as (Hin & Hck & m & Hm & HP).
  unfold timeoutPending. rewrite Hr, Ht, Hc.
  split; [apply in_or_app; left; exact Hin|].
  split; [exact Hck|].
  exists m. split; [|exact HP].
  rewrite nth_error_app1; [exact Hm|].
  apply nth_error_Some. congruence.
Qed.

Lemma timeoutPending_fold_stop (l : list Timer) :
  forall s : Page,
    timeoutPending P r due s ->
    timeoutPending P r due
      (fold_left (fun s' tm => recorder_stop (timer_recorder tm) s') l s).
Proof.
  induction l as [|tm l IH]; intros s Hp; simpl; [exact Hp|].
  apply IH, timeoutPending_stop, Hp.
Qed.

Lemma timeoutPending_advanceTo (now : Q) (s : Page) :
  now < due -> timeoutPending P r due s ->
  timeoutPending P r due (advanceTo now s).
Proof.
  intros Hnow Hp. unfold advanceTo.
  destruct (Qltb now (clock s)); [exact Hp|].
  apply timeoutPending_fold_stop.
  destruct Hp as (Hin & Hck & m & Hm & HP).
  unfold timeoutPending. simpl.
  split; [|split; [apply Qlt_le_weak, Hnow | eauto]].
  apply filter_In. split; [exact Hin|].
  apply negb_true_iff. simpl.
  destruct (Qle_bool due now) eqn:E; [|reflexivity].
  apply Qle_bool_iff in E. exfalso. apply (Qlt_not_le _ _ Hnow E).
Qed.

(** No event before [due] takes the timeout away. *)
Lemma timeoutPending_step (a : Action) (s : Page) :
  before due a -> timeoutPending P r due s ->
  timeoutPending P r due (step a s).
Proof.
  intros Ha Hp. destruct a; simpl in *.
  - revert Hp. apply timeoutPending_fields. repeat split.
  - revert Hp. apply timeoutPending_fields. repeat split.
  - revert Hp. apply timeoutPending_fields. repeat split.
  - destruct (_ && _); [|exact Hp].
    revert Hp. apply timeoutPending_fields, startPreview_fields.
  - destruct (_ && _); [|exact Hp].
    apply timeoutPending_startRecording, Hp.
  - destruct (isRecording s); [|exact Hp].
    unfold stopRecording. destruct (recorderRef s); [|exact Hp].
    apply timeoutPending_stop, Hp.
  - revert Hp. apply timeoutPending_fields. repeat split.
  - unfold imageLoaded. destruct (imageRef s); [|exact Hp].
    revert Hp. apply timeoutPending_fields.
    destruct (startPreview_fields
                (setElements (canvasRef s)
                   (Some {| naturalWidth := w0; naturalHeight := h0 |}) s))
      as (Hr & Ht & Hc).
    rewrite Hr, Ht, Hc. repeat split.
  - revert Hp. apply timeoutPending_fields, animationFrame_fields.
  - apply timeoutPending_advanceTo; assumption.
  - unfold deliverStop. destruct (stopEvents s) as [|e rest]; [exact Hp|].
    revert Hp. apply timeoutPending_fields.
    unfold onstop, ondataavailable, createObjectURL_blob.
    destruct (0 <? size0)%nat;
      match goal with
      | |- context [stopPreview ?p] =>
          destruct (stopPreview_fields p) as (Hr & Ht & Hc);
          rewrite Hr, Ht, Hc; repeat split
      end.
Qed.

Lemma timeoutPending_run (acts : list Action) :
  forall s : Page,
    Forall (before due) acts -> timeoutPending P r due s ->
    timeoutPending P r due (run acts s).
Proof.
  induction acts as [|a acts IH]; intros s Hb Hp; simpl; [exact Hp|].
  inversion Hb as [|? ? Ha Hb']; subst.
  apply IH; [exact Hb'|]. apply timeoutPending_step; assumption.
Qed.

End ScheduledStop.

(** C8: the stop scheduled by [startRecording] is never cancelled.  When
    [stopRecording] is called on the recorder before the scheduled
    instant, then whatever happens before that instant the timeout is
    still pending afterwards; when the instant comes it runs and calls
    [stop()] once more, on the recorder that is already inactive. *)
Theorem stop_timeout_never_cancelled (s : Page) (early acts : list Action)
    (T : Q) :
  canvasRef s <> None -> imageRef s <> None ->
  let r := length (recorders s) in
  let due := clock s + Qmax (durationSec s * 1000) 0 in
  let s0 := run early (startRecording s) in
  let s1 := stopRecording s0 in
  let s2 := run acts s1 in
  Forall (before due) early -> recorderRef s0 = Some r ->
  Forall (before due) acts -> due <= T ->
  In {| timer_due := due; timer_recorder := r |} (timers s1) /\
  In {| timer_due := due; timer_recorder := r |} (timers s2) /\
  exists k k' : nat,
    (k < k')%nat /\ stoppedWith r k s2 /\ stoppedWith r k' (advanceTo T s2).
Proof.
  intros Hc Hi r due s0 s1 s2 Hearly Href Hacts HT.
  destruct (startRecording_fields s Hc Hi) as (Hr & Ht & Hck & _).
  fold r in Hr, Ht. fold due in Ht.
  assert (Hp : timeoutPending startedOrStopped r due (startRecording s)).
  { split; [|split].
    - rewrite Ht. apply in_or_app. right. left. reflexivity.
    - rewrite Hck. subst due.
      pose proof (Q.le_max_r (durationSec s * 1000) 0). lra.
    - exists {| state := recording; stopCalls := [] |}.
      split; [|left; reflexivity].
      rewrite Hr. apply nth_error_last. }
  assert (Hp0 : timeoutPending startedOrStopped r due s0).
  { apply timeoutPending_run; [|exact Hearly | exact Hp].
    intros m Hm. right. apply startedOrStopped_stopped, Hm. }
  assert (Hp1 : timeoutPending isStopped r due s1).
  { subst s1. unfold stopRecording. rewrite Href.
    destruct Hp0 as (Hin & Hle & m & Hm & HP).
    destruct (recorder_stop_fields r s0) as (Hr0 & Ht0 & Hc0).
    unfold timeoutPending.
    rewrite Hr0, Ht0, Hc0, nth_error_update, Hm, Nat.eqb_refl.
    repeat split; try assumption.
    exists (stopped m). split; [reflexivity|].
    apply startedOrStopped_stopped, HP. }
  assert (Hp2 : timeoutPending isStopped r due s2)
    by (apply timeoutPending_run;
        [exact isStopped_stopped | exact Hacts | exact Hp1]).
  destruct Hp2 as (Hin & Hle & m & Hm & k & ->).
  split; [apply Hp1|]. split; [exact Hin|].
  unfold advanceTo.
  assert (E : Qltb T (clock s2) = false) by (apply Qltb_ge; lra).
  rewrite E.
  set (s3 := setClock T _).
  destruct (fire_all r
              (filter (fun tm => Qle_bool (timer_due tm) T) (timers s2))
              s3 k Hm) as (_ & _ & k' & _ & Hlt & Hk').
  exists k, k'. split; [|split; [exact Hm | exact Hk']].
  apply Hlt. exists {| timer_due := due; timer_recorder := r |}.
  split; [|reflexivity].
  apply filter_In. split; [exact Hin|]. apply Qle_bool_iff. exact HT.
Qed.

Lemma stop_timeout_never_cancelled_witness :
  let s := run [PickFile 7%nat; Render; ImageLoaded 1920 1080] initialPage in
  let early := [AnimationFrame 16; TimePasses 10000] in
  let acts := [RecorderStopped 10; TimePasses 30000; PickFile 8%nat] in
  let s0 := run early (startRecording s) in
  let s2 := run acts (stopRecording s0) in
  (canvasRef s <> None /\ imageRef s <> None /\
   Forall (before 60000) early /\ recorderRef s0 = Some 0%nat /\
   Forall (before 60000) acts /\ 60000 <= 60000) /\
  recorders s2 = [ {| state := inactive; stopCalls := [recording] |} ] /\
  recorders (advanceTo 60000 s2)
    = [ {| state := inactive; stopCalls := [recording; inactive] |} ] /\
  exists k k' : nat,
    (k < k')%nat /\ stoppedWith 0 k s2 /\ stoppedWith 0 k' (advanceTo 60000 s2).
Proof.
  intros s early acts s0 s2.
  assert (Hc : canvasRef s <> None) by discriminate.
  assert (Hi : imageRef s <> None) by discriminate.
  assert (He : Forall (before 60000) early) by (repeat constructor).
  assert (Hr : recorderRef s0 = Some 0%nat) by reflexivity.
  assert (Ha : Forall (before 60000) acts) by (repeat constructor).
  assert (HT : 60000 <= 60000) by discriminate.
  split; [repeat split; assumption|].
  split; [reflexivity|]. split; [reflexivity|].
  exact (proj2 (proj2
           (stop_timeout_never_cancelled s early acts 60000
              Hc Hi He Hr Ha HT))).
Defined.

(** ** Image placement *)

Lemma Math_roundR_eq (k : Z) (x : R) :
  (IZR k <= x + / 2 < IZR k + 1)%R -> Math_roundR x = IZR k.
Proof.
  intros [Hlo Hhi]. unfold Math_roundR. f_equal. symmetry.
  apply Int_part_spec. split; lra.
Qed.

(** The placement depends on the value of [t] only. *)
Lemma drawImage_at_wd (canvas : Canvas) (img : Image) (t t' : Q) :
  t == t' -> drawImage_at canvas img t = drawImage_at canvas img t'.
Proof.
  intro H. unfold drawImage_at.
  set (sc := fun u => DrawFrame.scale canvas img (DrawFrame.zoom u)).
  assert (Ht : Q2R t = Q2R t') by (apply Qeq_eqR, H).
  assert (Hs : sc t == sc t')
    by (unfold sc, DrawFrame.scale, DrawFrame.zoom; rewrite H; reflexivity).
  assert (Hw : Q2R (DrawFrame.drawW img (sc t))
               = Q2R (DrawFrame.drawW img (sc t')))
    by (apply Qeq_eqR; unfold DrawFrame.drawW; rewrite Hs; reflexivity).
  assert (Hh : Q2R (DrawFrame.drawH img (sc t))
               = Q2R (DrawFrame.drawH img (sc t')))
    by (apply Qeq_eqR; unfold DrawFrame.drawH; rewrite Hs; reflexivity).
  assert (Hw2 : Q2R (DrawFrame.drawW img (sc t) / 2)
                = Q2R (DrawFrame.drawW img (sc t') / 2))
    by (apply Qeq_eqR; unfold DrawFrame.drawW; rewrite Hs; reflexivity).
  assert (Hh2 : Q2R (DrawFrame.drawH img (sc t) / 2)
                = Q2R (DrawFrame.drawH img (sc t') / 2))
    by (apply Qeq_eqR; unfold DrawFrame.drawH; rewrite Hs; reflexivity).
  unfold DrawFrame.dx, DrawFrame.dy, DrawFrame.panX, DrawFrame.panY.
  fold (sc t) (sc t').
  rewrite Ht, Hw, Hh, Hw2, Hh2. reflexivity.
Qed.

(** The first frame of a preview is drawn at [t = 0]: [loop] has just
    set the start time to the time stamp it draws. *)
Lemma first_frame_t (startTime durationSec : Q) :
  DrawFrame.t (DrawFrame.elapsed startTime startTime) durationSec == 0.
Proof.
  unfold DrawFrame.t, DrawFrame.elapsed.
  assert (H : (startTime - startTime) / 1000 / durationSec == 0).
  { unfold Qdiv. setoid_replace (startTime - startTime) with 0 by ring.
    rewrite !Qmult_0_l. reflexivity. }
  rewrite H. reflexivity.
Qed.

Lemma placement_at_start :
  drawImage_at {| canvas_width := 540; canvas_height := 960 |}
      {| naturalWidth := 1920; naturalHeight := 1080 |} 0
  = {| di_dx := -626; di_dy := 14; di_w := 1792; di_h := 1008 |}.
Proof.
  unfold drawImage_at, DrawFrame.dx, DrawFrame.dy, DrawFrame.centerX,
    DrawFrame.centerY, DrawFrame.panX, DrawFrame.panY.
  replace (Q2R 0 * PI * 2)%R with 0%R by (unfold Q2R; simpl; lra).
  rewrite sin_0, cos_0.
  f_equal.
  - apply (Math_roundR_eq (-626)). unfold Q2R; simpl. lra.
  - apply (Math_roundR_eq 14). unfold Q2R; simpl. lra.
  - unfold Q2R; simpl. lra.
  - unfold Q2R; simpl. lra.
Qed.

(** With an image at least as wide for its height as the canvas, the
    first frame puts the top edge of the image 1.5% of the canvas height
    below the top of the canvas (before rounding): the zoom of 1.05
    leaves 2.5% on each side, the pan takes 4%. *)
Lemma top_edge_at_start (canvas : Canvas) (img : Image) :
  0 < naturalHeight img ->
  canvas_width canvas / naturalWidth img
    <= canvas_height canvas / naturalHeight img ->
  (DrawFrame.centerY canvas (DrawFrame.panY 0)
   - Q2R (DrawFrame.drawH img
            (DrawFrame.scale canvas img (DrawFrame.zoom 0)) / 2)
   = 0.015 * Q2R (canvas_height canvas))%R.
Proof.
  intros Hh Hle.
  assert (E : DrawFrame.drawH img
                (DrawFrame.scale canvas img (DrawFrame.zoom 0)) / 2
              == (21 # 40) * canvas_height canvas).
  { unfold DrawFrame.drawH, DrawFrame.scale, DrawFrame.zoom.
    rewrite (Q.max_r _ _ Hle). field. intro H0. rewrite H0 in Hh.
    apply (Qlt_irrefl _ Hh). }
  rewrite (Qeq_eqR _ _ E), Q2R_mult.
  unfold DrawFrame.centerY, DrawFrame.panY.
  replace (Q2R 0 * PI * 2)%R with 0%R by (unfold Q2R; simpl; lra).
  rewrite cos_0. unfold Qdiv. rewrite Q2R_mult.
  replace (Q2R (21 # 40)) with (21 / 40)%R by (unfold Q2R; simpl; lra).
  replace (Q2R (/ 2)) with (/ 2)%R by (unfold Q2R; simpl; lra).
  lra.
Qed.

(** C1 fails on the code: on the 540 x 960 canvas, the first frame of a
    1920 x 1080 image is drawn with its top edge at y = 14, so the image
    rectangle does not contain the frame (rows 0 to 13 keep the black
    fill), whatever the duration. *)
Theorem first_frame_leaves_top_uncovered (measureText : string -> string -> Q)
    (startTime durationSec : Q) :
  let canvas := {| canvas_width := 540; canvas_height := 960 |} in
  let img := {| naturalWidth := 1920; naturalHeight := 1080 |} in
  let frame :=
    drawFrame measureText (Some canvas) (Some img)
      startTime durationSec startTime in
  option_map frame_image frame
    = Some {| di_dx := -626; di_dy := 14; di_w := 1792; di_h := 1008 |} /\
  (forall image : DrawImage,
     option_map frame_image frame = Some image -> ~ covers canvas image).
Proof.
  intros canvas img frame.
  assert (E : option_map frame_image frame
              = Some {| di_dx := -626; di_dy := 14;
                        di_w := 1792; di_h := 1008 |}).
  { subst frame. cbn [drawFrame option_map frame_image]. f_equal.
    rewrite (drawImage_at_wd canvas img _ 0 (first_frame_t _ _)).
    apply placement_at_start. }
  split; [exact E|].
  intros image Him. rewrite E in Him. injection Him as <-.
  unfold covers. simpl. lra.
Qed.

(** * Further properties of the frame arithmetic *)

(** ** Normalized progress *)

(** X1: The progress of a frame is [elapsed / durationSec] up to the end of
    the duration and 1 from then on; it lies in [0,1] and never goes
    back, and at the end of the duration the zoom has reached 1.17. *)
Theorem progress_clamped (elapsed durationSec : Q) :
  0 < durationSec -> 0 <= elapsed ->
  0 <= DrawFrame.t elapsed durationSec <= 1 /\
  (elapsed <= durationSec ->
     DrawFrame.t elapsed durationSec == elapsed / durationSec) /\
  (durationSec <= elapsed ->
     DrawFrame.t elapsed durationSec == 1 /\
     DrawFrame.zoom (DrawFrame.t elapsed durationSec) == 1.17) /\
  (forall later : Q, elapsed <= later ->
     DrawFrame.t elapsed durationSec <= DrawFrame.t later durationSec).
Proof.
  intros Hd He.
  split; [apply t_unit_interval; assumption|].
  split; [|split].
  - intro Hle. unfold DrawFrame.t. apply Q.min_l.
    apply Qle_shift_div_r; [exact Hd | lra].
  - intro Hge.
    assert (E : DrawFrame.t elapsed durationSec == 1).
    { unfold DrawFrame.t. apply Q.min_r.
      apply Qle_shift_div_l; [exact Hd | lra]. }
    split; [exact E|]. unfold DrawFrame.zoom. rewrite E. reflexivity.
  - intros later Hl. apply t_mono; assumption.
Qed.

Lemma progress_clamped_witness :
  0 < 60 /\ 0 <= 75 /\
  DrawFrame.t 75 60 == 1 /\ DrawFrame.zoom (DrawFrame.t 75 60) == 1.17.
Proof.
  assert (Hd : 0 < 60) by reflexivity.
  assert (He : 0 <= 75) by discriminate.
  destruct (progress_clamped 75 60 Hd He) as (_ & _ & Hend & _).
  split; [exact Hd|]. split; [exact He|].
  apply Hend. discriminate.
Defined.

(** ** Camera pan *)


(** ** Size of the drawn image *)



(** ** Overlay opacities *)

(** The fade-in used by the bullet points and the pill: 0 up to [start],
    1 from [start + 1.5] on, within [0,1] and never decreasing. *)
Lemma ramp_profile (start e : Q) :
  let ramp := fun x : Q => Qmin (Qmax ((x - start) / 1.5) 0) 1 in
  0 <= ramp e <= 1 /\
  (e <= start -> ramp e == 0) /\
  (start + 1.5 <= e -> ramp e == 1) /\
  (forall e' : Q, e <= e' -> ramp e <= ramp e').
Proof.
  intro ramp. subst ramp. cbv beta.
  split; [split|split; [|split]].
  - apply Q.min_glb; [apply Q.le_max_r | discriminate].
  - apply Q.le_min_r.
  - intro H.
    assert (Hneg : (e - start) / 1.5 <= 0)
      by (apply Qle_shift_div_r; [reflexivity | lra]).
    rewrite (Q.max_r _ _ Hneg). apply Q.min_l. discriminate.
  - intro H. apply Q.min_r.
    apply Qle_trans with ((e - start) / 1.5); [|apply Q.le_max_l].
    apply Qle_shift_div_l; [reflexivity | lra].
  - intros e' H. apply Q.min_le_compat_r, Q.max_le_compat_r.
    apply Qdiv_le_mono; [reflexivity | lra].
Qed.

Lemma appearAt_succ (i : nat) :
  DrawFrame.appearAt (S i) == DrawFrame.appearAt i + 3.
Proof.
  unfold DrawFrame.appearAt. rewrite Nat2Z.inj_succ.
  unfold Z.succ. rewrite inject_Z_plus. ring.
Qed.

(** X4: Bullet point [i] is invisible up to [4 + 3 i] seconds and fully
    visible from 1.5 seconds later on; its opacity is within [0,1], never
    decreases with time, and a later bullet is never more visible than an
    earlier one. *)
Theorem point_alpha_profile (i : nat) (elapsed : Q) :
  0 <= DrawFrame.alpha elapsed i <= 1 /\
  (elapsed <= 4 + 3 * inject_Z (Z.of_nat i) ->
     DrawFrame.alpha elapsed i == 0) /\
  (4 + 3 * inject_Z (Z.of_nat i) + 1.5 <= elapsed ->
     DrawFrame.alpha elapsed i == 1) /\
  (forall later : Q, elapsed <= later ->
     DrawFrame.alpha elapsed i <= DrawFrame.alpha later i) /\
  DrawFrame.alpha elapsed (S i) <= DrawFrame.alpha elapsed i.
Proof.
  destruct (ramp_profile (DrawFrame.appearAt i) elapsed)
    as (Hb & H0 & H1 & Hm).
  assert (Ea : DrawFrame.appearAt i == 4 + 3 * inject_Z (Z.of_nat i))
    by (unfold DrawFrame.appearAt; ring).
  split; [exact Hb|]. split; [|split; [|split]].
  - intro H. apply H0. lra.
  - intro H. apply H1. lra.
  - exact Hm.
  - unfold DrawFrame.alpha.
    apply Q.min_le_compat_r, Q.max_le_compat_r.
    apply Qdiv_le_mono; [reflexivity|].
    pose proof (appearAt_succ i). lra.
Qed.

Lemma drawPoints_alphas (canvas : Canvas) (elapsed : Q) (ps : list string) :
  forall i : nat,
    Forall (fun p => 0 <= fst p <= 1) (drawPoints canvas elapsed i ps).
Proof.
  induction ps as [|p ps IH]; intro i; simpl; constructor.
  - apply (ramp_profile (DrawFrame.appearAt i) elapsed).
  - apply IH.
Qed.

(** X5: Every opacity [drawFrame] sets is a valid [globalAlpha]: from the
    start of the clock on, the headline, every bullet point and the pill
    are drawn with an opacity within [0,1], and a pill that is drawn is
    not transparent. *)
Theorem drawFrame_alphas_valid (measureText : string -> string -> Q)
    (canvas : Canvas) (img : Image) (startTime durationSec now : Q) :
  startTime <= now ->
  exists frame : Frame,
    drawFrame measureText (Some canvas) (Some img) startTime durationSec now
      = Some frame /\
    0 <= frame_headAlpha frame <= 1 /\
    Forall (fun p => 0 <= fst p <= 1) (frame_points frame) /\
    (forall pill : CtaPill,
       frame_cta frame = Some pill -> 0 < cta_alpha pill <= 1).
Proof.
  intro Hnow. eexists. split; [reflexivity|]. cbn [frame_headAlpha
    frame_points frame_cta].
  set (elapsed := DrawFrame.elapsed now startTime).
  assert (He : 0 <= elapsed).
  { subst elapsed. unfold DrawFrame.elapsed.
    apply Qdiv_nonneg; [reflexivity | lra]. }
  split; [|split].
  - unfold DrawFrame.headAlpha.
    destruct (Qltb _ _); [|split; discriminate].
    split.
    + assert (H0 : DrawFrame.ease 0 == 0) by reflexivity.
      rewrite <- H0. apply ease_mono; [|apply Q.le_min_r].
      apply Q.min_glb; [|discriminate].
      apply Qdiv_nonneg; [reflexivity | exact He].
    + apply ease_le_1, Q.le_min_r.
  - apply drawPoints_alphas.
  - intros pill. unfold ctaPill_at.
    destruct (Qgtb (DrawFrame.ctaAlpha elapsed) 0) eqn:E; [|discriminate].
    intro H. injection H as <-. cbn [cta_alpha].
    split; [apply Qltb_lt, E|].
    apply (ramp_profile DrawFrame.ctaAppear elapsed).
Qed.

Lemma drawFrame_alphas_valid_witness :
  1000 <= 14000 /\
  exists frame : Frame,
    drawFrame (fun _ s => inject_Z (Z.of_nat (String.length s)))
      (Some {| canvas_width := 540; canvas_height := 960 |})
      (Some {| naturalWidth := 1920; naturalHeight := 1080 |})
      1000 60 14000 = Some frame /\
    0 <= frame_headAlpha frame <= 1 /\
    Forall (fun p => 0 <= fst p <= 1) (frame_points frame) /\
    (forall pill : CtaPill,
       frame_cta frame = Some pill -> 0 < cta_alpha pill <= 1).
Proof.
  assert (H : 1000 <= 14000) by discriminate.
  split; [exact H|].
  exact (drawFrame_alphas_valid _ _ _ 1000 60 14000 H).
Defined.

(** X6: The pill is drawn exactly in the frames later than 12 seconds; it is
    fully opaque from 13.5 seconds on, and it sits with its right and
    bottom edges 16 pixels inside the canvas, 34 pixels high and 24
    pixels wider than its text. *)
Theorem cta_pill_placement (measureText : string -> string -> Q)
    (canvas : Canvas) (elapsed : Q) :
  (ctaPill_at measureText canvas elapsed <> None <-> 12 < elapsed) /\
  (forall pill : CtaPill,
     ctaPill_at measureText canvas elapsed = Some pill ->
     (13.5 <= elapsed -> cta_alpha pill == 1) /\
     cta_w pill == measureText font_cta cta + 24 /\
     cta_h pill == 34 /\
     cta_x pill + cta_w pill == canvas_width canvas - 16 /\
     cta_y pill + cta_h pill == canvas_height canvas - 16).
Proof.
  split.
  - split.
    + intro H. apply Qnot_le_lt. intro Hle. apply H.
      apply ctaPill_hidden, Hle.
    + intro H. unfold ctaPill_at.
      assert (E : Qgtb (DrawFrame.ctaAlpha elapsed) 0 = true).
      { apply Qltb_lt. unfold DrawFrame.ctaAlpha, DrawFrame.ctaAppear.
        apply Q.min_glb_lt; [|reflexivity].
        apply Qlt_le_trans with ((elapsed - 12) / 1.5); [|apply Q.le_max_l].
        apply Qlt_shift_div_l; [reflexivity | lra]. }
      rewrite E. discriminate.
  - intros pill. unfold ctaPill_at.
    destruct (Qgtb _ _); [|discriminate].
    intro H. injection H as <-. cbn [cta_alpha cta_w cta_h cta_x cta_y].
    split; [|unfold DrawFrame.pad; repeat split; ring].
    intro H. apply (ramp_profile DrawFrame.ctaAppear elapsed).
    unfold DrawFrame.ctaAppear. lra.
Qed.

(** * Further properties of the word wrap *)

Lemma lineOf_split (s : string) : lineOf (split " " s) = (s ++ " ")%string.
Proof.
  induction s as [|c s IH]; [reflexivity|].
  cbn [split]. destruct (Ascii.eqb c " ") eqn:E.
  - apply Ascii.eqb_eq in E. subst c. cbn [lineOf]. rewrite IH. reflexivity.
  - destruct (split " " s) as [|word ws].
    + destruct s; discriminate IH.
    + cbn [lineOf] in *. simpl. now rewrite IH.
Qed.

Lemma joinLines_lineOf (groups : list (list string)) :
  joinLines (map lineOf groups) = lineOf (concat groups).
Proof.
  unfold joinLines.
  induction groups as [|g groups IH]; simpl; [reflexivity|].
  now rewrite IH, lineOf_app.
Qed.

Lemma wrapWords_loop_length (measureText : string -> Q) (maxWidth : Q)
    (words : list string) :
  forall (n : nat) (current : list string),
    (1 <= length (wrapWords_loop measureText maxWidth n words current)
       <= S (length words))%nat.
Proof.
  induction words as [|word rest IH]; intros n current; simpl; [lia|].
  destruct (_ && _); simpl.
  - specialize (IH (S n) [word]). lia.
  - specialize (IH (S n) (current ++ [word])). lia.
Qed.

(** X7: The lines drawn, put end to end, are the text followed by one space:
    the wrap drops no character and adds only the spaces the text has and
    the final one.  There is at least one line and at most one line per
    word. *)
Theorem wrapText_keeps_text (measureText : string -> Q) (text : string)
    (x y maxWidth lineHeight : Q) :
  let lines :=
    map ft_text (wrapText measureText text x y maxWidth lineHeight) in
  joinLines lines = (text ++ " ")%string /\
  (1 <= length lines <= length (split " " text))%nat.
Proof.
  intro lines. subst lines. unfold wrapText.
  rewrite (wrapText_loop_lines measureText x maxWidth lineHeight _ 0 []).
  split.
  - rewrite joinLines_lineOf, wrapWords_loop_concat. apply lineOf_split.
  - rewrite length_map.
    pose proof (split_nonempty " " text) as Hne.
    destruct (split " " text) as [|word rest]; [congruence|].
    simpl. rewrite andb_false_r.
    apply wrapWords_loop_length.
Qed.

Lemma wrapText_loop_positions (measureText : string -> Q)
    (x maxWidth lineHeight : Q) (words : list string) :
  forall (n : nat) (line : string) (currentY : Q) (k : nat) (c : FillText),
    nth_error
      (wrapText_loop measureText x maxWidth lineHeight n words line currentY)
      k = Some c ->
    ft_x c = x /\
    ft_y c == currentY + inject_Z (Z.of_nat k) * lineHeight.
Proof.
  induction words as [|word rest IH]; intros n line currentY k c;
    cbn [wrapText_loop].
  - destruct k as [|k]; cbn [nth_error]; [|destruct k; discriminate].
    intro H. injection H as <-. split; [reflexivity | simpl; ring].
  - destruct (_ && _).
    + destruct k as [|k]; cbn [nth_error].
      * intro H. injection H as <-. split; [reflexivity | simpl; ring].
      * intro H. apply IH in H. destruct H as [Hx Hy].
        split; [exact Hx|]. rewrite Hy, Nat2Z.inj_succ. unfold Z.succ.
        rewrite inject_Z_plus. ring.
    + apply IH.
Qed.

(** X8: Every line is drawn at the given [x]; line [k] (from 0) is drawn
    [k] line heights below the given [y]. *)
Theorem wrapText_positions (measureText : string -> Q) (text : string)
    (x y maxWidth lineHeight : Q) (k : nat) (c : FillText) :
  nth_error (wrapText measureText text x y maxWidth lineHeight) k = Some c ->
  ft_x c = x /\ ft_y c == y + inject_Z (Z.of_nat k) * lineHeight.
Proof. apply wrapText_loop_positions. Qed.

Lemma wrapText_positions_witness :
  let calls :=
    wrapText (fun s => inject_Z (Z.of_nat (String.length s)))
      "aa bbbbbbbb c" 16 800 5 28 in
  nth_error calls 2 = Some {| ft_text := "c "; ft_x := 16; ft_y := 856 |} /\
  ft_x {| ft_text := "c "; ft_x := 16; ft_y := 856 |} = 16 /\
  ft_y {| ft_text := "c "; ft_x := 16; ft_y := 856 |} == 800 + 2 * 28.
Proof.
  intro calls.
  assert (H : nth_error calls 2
              = Some {| ft_text := "c "; ft_x := 16; ft_y := 856 |})
    by reflexivity.
  split; [exact H|].
  exact (wrapText_positions _ _ 16 800 5 28 2%nat _ H).
Defined.

Lemma wrapText_loop_fits_all (measureText : string -> Q)
    (x maxWidth lineHeight : Q) (words : list string) :
  monotone measureText ->
  forall (n : nat) (current : list string) (currentY : Q),
    measureText (lineOf (current ++ words)) <= maxWidth ->
    wrapText_loop measureText x maxWidth lineHeight n words
      (lineOf current) currentY
    = [ {| ft_text := lineOf (current ++ words); ft_x := x;
           ft_y := currentY |} ].
Proof.
  intro Hm.
  induction words as [|word rest IH]; intros n current currentY Hfit; simpl.
  - now rewrite app_nil_r.
  - assert (E : current ++ word :: rest = (current ++ [word]) ++ rest)
      by (rewrite <- app_assoc; reflexivity).
    assert (Hle : measureText (lineOf (current ++ [word])) <= maxWidth).
    { apply Qle_trans with (measureText (lineOf (current ++ word :: rest)));
        [|exact Hfit].
      rewrite E, (lineOf_app (current ++ [word]) rest). apply Hm. }
    rewrite lineOf_snoc.
    apply Qltb_ge in Hle. unfold Qgtb. rewrite Hle. simpl.
    rewrite E. apply IH. rewrite <- E. exact Hfit.
Qed.

(** X9: Under a measure that never gives a string a smaller width than a part
    of it, a text that fits (with the final space) is drawn as one line,
    unbroken, at the given position. *)
Theorem wrapText_one_line_when_fits (measureText : string -> Q)
    (text : string) (x y maxWidth lineHeight : Q) :
  monotone measureText ->
  measureText (text ++ " ")%string <= maxWidth ->
  wrapText measureText text x y maxWidth lineHeight
  = [ {| ft_text := (text ++ " ")%string; ft_x := x; ft_y := y |} ].
Proof.
  intros Hm Hfit. unfold wrapText.
  rewrite <- (lineOf_split text).
  apply (wrapText_loop_fits_all measureText x maxWidth lineHeight
           (split " " text) Hm 0 [] y).
  simpl. rewrite lineOf_split. exact Hfit.
Qed.

Lemma wrapText_one_line_when_fits_witness :
  let measureText := fun s => inject_Z (Z.of_nat (String.length s)) in
  monotone measureText /\
  measureText "Deen Ply Doors "%string <= 508 /\
  wrapText measureText "Deen Ply Doors" 16 800 508 28
  = [ {| ft_text := "Deen Ply Doors "; ft_x := 16; ft_y := 800 |} ].
Proof.
  intro measureText.
  assert (Hfit : measureText "Deen Ply Doors "%string <= 508)
    by discriminate.
  split; [exact length_monotone|]. split; [exact Hfit|].
  exact (wrapText_one_line_when_fits measureText "Deen Ply Doors"
           16 800 508 28 length_monotone Hfit).
Defined.

Lemma wrapWords_loop_head (measureText : string -> Q) (maxWidth : Q)
    (words : list string) :
  forall (n : nat) (current : list string),
    exists (tail : list string) (rest : list (list string)),
      wrapWords_loop measureText maxWidth n words current
      = (current ++ tail) :: rest.
Proof.
  induction words as [|word ws IH]; intros n current; simpl.
  - exists [], []. now rewrite app_nil_r.
  - destruct (_ && _).
    + exists [], (wrapWords_loop measureText maxWidth (S n) ws [word]).
      now rewrite app_nil_r.
    + destruct (IH (S n) (current ++ [word])) as (tail & rest & E).
      exists (word :: tail), rest. rewrite E. now rewrite <- app_assoc.
Qed.

Lemma wrapWords_loop_greedy (measureText : string -> Q) (maxWidth : Q)
    (words : list string) :
  forall (n : nat) (current : list string),
    greedyBreaks measureText maxWidth
      (wrapWords_loop measureText maxWidth n words current).
Proof.
  induction words as [|word ws IH]; intros n current; simpl; [exact I|].
  destruct (Qgtb _ _) eqn:E; simpl.
  - destruct (0 <? n)%nat; [|apply IH].
    pose proof (IH (S n) [word]) as Hg.
    destruct (wrapWords_loop_head measureText maxWidth ws (S n) [word])
      as (tail & rest & Eq).
    rewrite Eq in *. simpl. split; [|exact Hg].
    apply Qltb_lt, E.
  - apply IH.
Qed.

(** X10: The wrap is greedy: wherever a line ends and another follows, the
    first word of the following line did not fit on the line before (the
    line with that word added measures more than [maxWidth]). *)
Theorem wrapText_breaks_when_needed (measureText : string -> Q)
    (text : string) (x y maxWidth lineHeight : Q) :
  map ft_text (wrapText measureText text x y maxWidth lineHeight)
    = map lineOf (wrapWords measureText text maxWidth) /\
  greedyBreaks measureText maxWidth (wrapWords measureText text maxWidth).
Proof.
  split.
  - apply (wrapText_loop_lines measureText x maxWidth lineHeight _ 0 []).
  - apply wrapWords_loop_greedy.
Qed.

(** * Further properties of the drawing helpers *)

(** X11: The corner radius of [roundRect] is the requested one unless half the
    width or half the height is smaller: every arc of the path has the
    same radius, at most [r], and two of them fit in each side.  For the
    pill, whose text has a width of at least 0, every arc has radius
    10. *)
Theorem roundRect_radius (x y w h r : Q) :
  (forall c radius,
     In c (roundRect x y w h r) -> arcRadius c = Some radius ->
     radius = radii w h r) /\
  radii w h r <= r /\ 2 * radii w h r <= w /\ 2 * radii w h r <= h /\
  (2 * r <= w -> 2 * r <= h -> radii w h r == r) /\
  (forall (measureText : string -> string -> Q) (canvas : Canvas)
          (elapsed : Q) (pill : CtaPill) (c : PathCommand) (radius : Q),
     0 <= measureText font_cta cta ->
     ctaPill_at measureText canvas elapsed = Some pill ->
     In c (ctaPath pill) -> arcRadius c = Some radius -> radius == 10).
Proof.
  assert (Harcs : forall x' y' w' h' r' c radius,
             In c (roundRect x' y' w' h' r') -> arcRadius c = Some radius ->
             radius = radii w' h' r').
  { intros x' y' w' h' r' c radius Hin Hc.
    unfold roundRect in Hin. simpl in Hin.
    repeat (destruct Hin as [<- | Hin]; [simpl in Hc; congruence|]).
    destruct Hin. }
  assert (Hr : radii w h r <= r).
  { unfold radii. eapply Qle_trans; [apply Q.le_min_l | apply Q.le_min_l]. }
  assert (Hw : radii w h r <= w / 2).
  { unfold radii. eapply Qle_trans; [apply Q.le_min_l | apply Q.le_min_r]. }
  assert (Hh : radii w h r <= h / 2) by (unfold radii; apply Q.le_min_r).
  assert (Hhalf : forall a b : Q, a <= b / 2 -> 2 * a <= b).
  { intros a b H.
    assert (E : b == 2 * (b / 2)) by field. rewrite E. lra. }
  assert (Hcap : forall w' h' r' : Q,
             2 * r' <= w' -> 2 * r' <= h' -> radii w' h' r' == r').
  { intros w' h' r' H1 H2. unfold radii.
    assert (E1 : r' <= w' / 2)
      by (apply Qle_shift_div_l; [reflexivity | lra]).
    assert (E2 : r' <= h' / 2)
      by (apply Qle_shift_div_l; [reflexivity | lra]).
    rewrite (Q.min_l _ _ E1). apply Q.min_l, E2. }
  split; [apply Harcs|].
  split; [exact Hr|].
  split; [apply Hhalf, Hw|].
  split; [apply Hhalf, Hh|].
  split; [apply Hcap|].
  intros measureText canvas elapsed pill c radius Hm Hpill Hin Hc.
  rewrite (Harcs _ _ _ _ _ c radius Hin Hc).
  revert Hpill. unfold ctaPill_at.
  destruct (Qgtb _ _); [|discriminate].
  intro H. injection H as <-. cbn [cta_w cta_h].
  apply Hcap; [lra | discriminate].
Qed.

(** * Further properties of the page *)

(** ** What the handlers leave alone *)

Lemma startPreview_keeps (s : Page) :
  chunksRef (startPreview s) = chunksRef s /\
  downloadUrl (startPreview s) = downloadUrl s /\
  imageUrl (startPreview s) = imageUrl s.
Proof.
  unfold startPreview, cancelPending.
  destruct (canvasRef s), (imageRef s); try (repeat split; fail).
  destruct (animRef s) as [[|id]|]; repeat split.
Qed.

Lemma stopPreview_keeps (s : Page) :
  chunksRef (stopPreview s) = chunksRef s /\
  downloadUrl (stopPreview s) = downloadUrl s /\
  imageUrl (stopPreview s) = imageUrl s /\
  isRecording (stopPreview s) = isRecording s /\
  stopEvents (stopPreview s) = stopEvents s.
Proof.
  unfold stopPreview, cancelPending.
  destruct (animRef s) as [[|id]|]; repeat split.
Qed.

Lemma loop_keeps (ts : Q) (s : Page) :
  chunksRef (loop ts s) = chunksRef s /\
  downloadUrl (loop ts s) = downloadUrl s /\
  imageUrl (loop ts s) = imageUrl s.
Proof.
  unfold loop. destruct (Qeq_bool (startTimeRef s) 0); repeat split.
Qed.

Lemma recorder_stop_keeps (r : nat) (s : Page) :
  chunksRef (recorder_stop r s) = chunksRef s /\
  downloadUrl (recorder_stop r s) = downloadUrl s /\
  imageUrl (recorder_stop r s) = imageUrl s /\
  frameRequests (recorder_stop r s) = frameRequests s /\
  animRef (recorder_stop r s) = animRef s /\
  nextId (recorder_stop r s) = nextId s.
Proof.
  unfold recorder_stop.
  destruct (nth_error (recorders s) r) as [m|]; [|repeat split].
  destruct (state m); repeat split.
Qed.

(** ** One preview loop *)

Lemma oneLoop_fields (s s' : Page) :
  frameRequests s' = frameRequests s -> animRef s' = animRef s ->
  nextId s' = nextId s -> oneLoop s -> oneLoop s'.
Proof.
  unfold oneLoop. intros -> -> ->. exact (fun H => H).
Qed.

Lemma oneLoop_fresh (s s' : Page) :
  frameRequests s' = frameRequests s -> animRef s' = animRef s ->
  nextId s' = S (nextId s) -> oneLoop s -> oneLoop s'.
Proof.
  unfold oneLoop. intros -> -> ->. intros (H1 & H2 & H3).
  repeat split; try assumption. lia.
Qed.

Lemma remove_single (id : nat) : remove Nat.eq_dec id [id] = [].
Proof. simpl. destruct (Nat.eq_dec id id); [reflexivity | congruence]. Qed.

Lemma cancelPending_clears (s : Page) :
  oneLoop s ->
  frameRequests (cancelPending s) = [] /\
  animRef (cancelPending s) = animRef s /\
  nextId (cancelPending s) = nextId s.
Proof.
  intros (Hf & Hpos & _). unfold cancelPending.
  destruct (animRef s) as [[|id]|] eqn:E.
  - specialize (Hpos 0%nat eq_refl). lia.
  - unfold cancelAnimationFrame. cbn. rewrite Hf.
    split; [apply remove_single | split; [exact E | reflexivity]].
  - repeat split; assumption.
Qed.

Lemma oneLoop_startPreview (s : Page) : oneLoop s -> oneLoop (startPreview s).
Proof.
  intro H. unfold startPreview.
  destruct (canvasRef s), (imageRef s); try exact H.
  destruct (cancelPending_clears s H) as (Hf & _ & Hn).
  destruct H as (_ & _ & Hnext).
  unfold oneLoop, requestAnimationFrame. cbn. rewrite Hf, Hn.
  split; [reflexivity|]. split; [|lia].
  intros id E. injection E as <-. exact Hnext.
Qed.

Lemma oneLoop_stopPreview (s : Page) :
  oneLoop s ->
  oneLoop (stopPreview s) /\
  frameRequests (stopPreview s) = [] /\ animRef (stopPreview s) = None.
Proof.
  intro H. unfold stopPreview.
  destruct (cancelPending_clears s H) as (Hf & _ & Hn).
  destruct H as (_ & _ & Hnext).
  unfold oneLoop. cbn. rewrite Hf, Hn.
  repeat split; try assumption. discriminate.
Qed.

Lemma oneLoop_animationFrame (ts : Q) (s : Page) :
  oneLoop s -> oneLoop (animationFrame ts s).
Proof.
  intros (Hf & Hpos & Hnext). unfold animationFrame. rewrite Hf.
  destruct (animRef s) as [id|] eqn:E; simpl.
  - unfold loop, requestAnimationFrame, oneLoop.
    destruct (Qeq_bool _ _); cbn; (split; [reflexivity|]);
      (split; [intros id' E'; injection E' as <-; exact Hnext | lia]).
  - unfold oneLoop. cbn. rewrite E. repeat split; assumption.
Qed.

Lemma oneLoop_fold_stop (l : list Timer) :
  forall s : Page,
    oneLoop s ->
    oneLoop
      (fold_left (fun s' tm => recorder_stop (timer_recorder tm) s') l s).
Proof.
  induction l as [|tm l IH]; intros s H; simpl; [exact H|].
  apply IH.
  destruct (recorder_stop_keeps (timer_recorder tm) s)
    as (_ & _ & _ & Hf & Ha & Hn).
  revert H. apply oneLoop_fields; assumption.
Qed.

Lemma oneLoop_startRecording (s : Page) :
  oneLoop s -> oneLoop (startRecording s).
Proof.
  intro H. unfold startRecording.
  destruct (canvasRef s), (imageRef s); try exact H.
  unfold newMediaRecorder, setTimeout_stop, recorder_start.
  match goal with
  | |- context [startPreview ?p] =>
      apply (oneLoop_fields (startPreview p)); try reflexivity;
      apply oneLoop_startPreview;
      revert H; apply oneLoop_fields; reflexivity
  end.
Qed.

Lemma oneLoop_step (a : Action) (s : Page) : oneLoop s -> oneLoop (step a s).
Proof.
  intro H. destruct a; simpl.
  - unfold handleFile, createObjectURL_file.
    revert H. apply oneLoop_fresh; reflexivity.
  - revert H. apply oneLoop_fields; reflexivity.
  - revert H. apply oneLoop_fields; reflexivity.
  - destruct (_ && _); [apply oneLoop_startPreview|]; exact H.
  - destruct (_ && _); [apply oneLoop_startRecording|]; exact H.
  - destruct (isRecording s); [|exact H].
    unfold stopRecording. destruct (recorderRef s) as [r|]; [|exact H].
    destruct (recorder_stop_keeps r s) as (_ & _ & _ & Hf & Ha & Hn).
    revert H. apply oneLoop_fields; assumption.
  - revert H. apply oneLoop_fields; reflexivity.
  - unfold imageLoaded. destruct (imageRef s); [|exact H].
    apply oneLoop_startPreview.
    revert H. apply oneLoop_fields; reflexivity.
  - apply oneLoop_animationFrame, H.
  - unfold advanceTo. destruct (Qltb now (clock s)); [exact H|].
    apply oneLoop_fold_stop.
    revert H. apply oneLoop_fields; reflexivity.
  - unfold deliverStop. destruct (stopEvents s) as [|e rest]; [exact H|].
    unfold onstop, createObjectURL_blob.
    apply oneLoop_stopPreview.
    match goal with
    | |- oneLoop (setIsRecording _ (setDownloadUrl _ (setNextId _ ?p))) =>
        apply (oneLoop_fresh p); try reflexivity
    end.
    unfold ondataavailable. destruct (0 <? size0)%nat;
      revert H; apply oneLoop_fields; reflexivity.
Qed.

Lemma oneLoop_run (acts : list Action) :
  forall s : Page, oneLoop s -> oneLoop (run acts s).
Proof.
  induction acts as [|a acts IH]; intros s H; simpl; [exact H|].
  apply IH, oneLoop_step, H.
Qed.

Lemma oneLoop_reachable (s : Page) : reachable s -> oneLoop s.
Proof.
  intros [acts ->]. apply oneLoop_run.
  unfold oneLoop. simpl. repeat split; [discriminate | lia].
Qed.

(** X12: Preview loops never pile up: whatever the events, at most one
    animation-frame callback is pending, and it is the one [animRef]
    holds, so that [startPreview] restarts the loop instead of adding
    one, and after [stopPreview] no callback is left and animation frames
    change nothing. *)
Theorem one_preview_loop (s : Page) :
  reachable s ->
  (length (frameRequests s) <= 1)%nat /\
  frameRequests s = match animRef s with Some id => [id] | None => [] end /\
  (length (frameRequests (startPreview s)) <= 1)%nat /\
  frameRequests (stopPreview s) = [] /\
  animRef (stopPreview s) = None /\
  (forall ts : Q,
     animationFrame ts (stopPreview s) = stopPreview s).
Proof.
  intro Hr. pose proof (oneLoop_reachable s Hr) as H.
  pose proof (oneLoop_startPreview s H) as Hp.
  destruct (oneLoop_stopPreview s H) as (_ & Hf & Ha).
  destruct H as (Hfr & _). destruct Hp as (Hfp & _).
  split; [rewrite Hfr; destruct (animRef s); simpl; lia|].
  split; [exact Hfr|].
  split; [rewrite Hfp; destruct (animRef (startPreview s)); simpl; lia|].
  split; [exact Hf|]. split; [exact Ha|].
  intro ts. unfold animationFrame. rewrite Hf. simpl.
  destruct (stopPreview s) eqn:E. simpl in Hf. subst. reflexivity.
Qed.

Lemma one_preview_loop_witness :
  let s :=
    run [PickFile 7%nat; Render; ImageLoaded 1920 1080; AnimationFrame 16;
         ClickPreview; ClickGenerate; AnimationFrame 33] initialPage in
  reachable s /\
  frameRequests s = [6%nat] /\ animRef s = Some 6%nat /\
  frameRequests (stopPreview s) = [].
Proof.
  intro s.
  assert (Hr : reachable s) by (eexists; reflexivity).
  destruct (one_preview_loop s Hr) as (_ & _ & _ & Hstop & _).
  split; [exact Hr|]. split; [reflexivity|]. split; [reflexivity|].
  exact Hstop.
Defined.

(** ** Chunks and URLs *)

Lemma chunksKept_fields (s s' : Page) :
  chunksRef s' = chunksRef s -> downloadUrl s' = downloadUrl s ->
  imageUrl s' = imageUrl s -> chunksKept s -> chunksKept s'.
Proof.
  unfold chunksKept. intros -> -> ->. exact (fun H => H).
Qed.

Lemma chunksKept_fold_loop (ts : Q) (l : list nat) :
  forall s : Page,
    chunksKept s -> chunksKept (fold_left (fun s' _ => loop ts s') l s).
Proof.
  induction l as [|id l IH]; intros s H; simpl; [exact H|].
  apply IH. destruct (loop_keeps ts s) as (Hc & Hd & Hi).
  revert H. apply chunksKept_fields; assumption.
Qed.

Lemma chunksKept_fold_stop (l : list Timer) :
  forall s : Page,
    chunksKept s ->
    chunksKept
      (fold_left (fun s' tm => recorder_stop (timer_recorder tm) s') l s).
Proof.
  induction l as [|tm l IH]; intros s H; simpl; [exact H|].
  apply IH.
  destruct (recorder_stop_keeps (timer_recorder tm) s) as (Hc & Hd & Hi & _).
  revert H. apply chunksKept_fields; assumption.
Qed.

Lemma chunksKept_startPreview (s : Page) :
  chunksKept s -> chunksKept (startPreview s).
Proof.
  destruct (startPreview_keeps s) as (Hc & Hd & Hi).
  apply chunksKept_fields; assumption.
Qed.

Lemma chunksKept_step (a : Action) (s : Page) :
  chunksKept s -> chunksKept (step a s).
Proof.
  intro H. destruct a; simpl.
  - destruct H as (Hc & _ & _). unfold chunksKept. simpl. auto.
  - revert H. apply chunksKept_fields; reflexivity.
  - revert H. apply chunksKept_fields; reflexivity.
  - destruct (_ && _); [apply chunksKept_startPreview|]; exact H.
  - destruct (_ && _); [|exact H]. unfold startRecording.
    destruct (canvasRef s), (imageRef s); try exact H.
    unfold newMediaRecorder, setTimeout_stop, recorder_start.
    match goal with
    | |- context [startPreview ?p] =>
        destruct (startPreview_keeps p) as (Hc & Hd & Hi);
        destruct H as (_ & H2 & H3);
        unfold chunksKept; cbn; rewrite Hc, Hd, Hi; cbn;
        split; [constructor | split; assumption]
    end.
  - destruct (isRecording s); [|exact H].
    unfold stopRecording. destruct (recorderRef s) as [r|]; [|exact H].
    destruct (recorder_stop_keeps r s) as (Hc & Hd & Hi & _).
    revert H. apply chunksKept_fields; assumption.
  - revert H. apply chunksKept_fields; reflexivity.
  - unfold imageLoaded. destruct (imageRef s); [|exact H].
    apply chunksKept_startPreview.
    revert H. apply chunksKept_fields; reflexivity.
  - unfold animationFrame. apply chunksKept_fold_loop.
    revert H. apply chunksKept_fields; reflexivity.
  - unfold advanceTo. destruct (Qltb now (clock s)); [exact H|].
    apply chunksKept_fold_stop.
    revert H. apply chunksKept_fields; reflexivity.
  - unfold deliverStop. destruct (stopEvents s) as [|e rest]; [exact H|].
    unfold onstop, createObjectURL_blob.
    match goal with
    | |- chunksKept (stopPreview ?p) =>
        destruct (stopPreview_keeps p) as (Hc & Hd & Hi & _);
        apply (chunksKept_fields p); try assumption
    end.
    destruct H as (H1 & _ & H3).
    assert (Hk : Forall (fun size => (0 < size)%nat)
                   (chunksRef (ondataavailable size0
                                 (setStopEvents rest s)))).
    { unfold ondataavailable. destruct (0 <? size0)%nat eqn:E; cbn.
      - apply Forall_app. split; [exact H1|].
        constructor; [apply Nat.ltb_lt, E | constructor].
      - exact H1. }
    unfold chunksKept. cbn. split; [exact Hk|]. split; [exact Hk|].
    unfold ondataavailable. destruct (0 <? size0)%nat; exact H3.
Qed.

Lemma chunksKept_run (acts : list Action) :
  forall s : Page, chunksKept s -> chunksKept (run acts s).
Proof.
  induction acts as [|a acts IH]; intros s H; simpl; [exact H|].
  apply IH, chunksKept_step, H.
Qed.

(** X13: No empty chunk is ever kept or published: whatever the events, the
    chunks gathered so far all have positive size, a download URL is
    always the URL of a recorded blob made of such chunks, and the image
    URL is always the URL of a picked file. *)
Theorem no_empty_chunk (s : Page) :
  reachable s ->
  Forall (fun size => (0 < size)%nat) (chunksRef s) /\
  (forall url : ObjectURL,
     downloadUrl s = Some url ->
     exists (id : nat) (chunks : list nat),
       url = UrlOfBlob id chunks /\
       Forall (fun size => (0 < size)%nat) chunks) /\
  (forall url : ObjectURL,
     imageUrl s = Some url ->
     exists (id : nat) (f : File), url = UrlOfFile id f).
Proof.
  intros [acts ->].
  assert (H : chunksKept (run acts initialPage)).
  { apply chunksKept_run. unfold chunksKept. simpl. auto. }
  destruct H as (H1 & H2 & H3).
  split; [exact H1|]. split.
  - intros url E. rewrite E in H2. destruct url as [id f|id chunks];
      [destruct H2 | eauto].
  - intros url E. rewrite E in H3. destruct url as [id f|id chunks];
      [eauto | destruct H3].
Qed.

Lemma no_empty_chunk_witness :
  let s :=
    run [PickFile 7%nat; Render; ImageLoaded 1920 1080; ClickGenerate;
         ClickStop; RecorderStopped 0; ClickGenerate; TimePasses 60000;
         RecorderStopped 12] initialPage in
  reachable s /\
  downloadUrl s = Some (UrlOfBlob 6 [12%nat]) /\
  Forall (fun size => (0 < size)%nat) (chunksRef s).
Proof.
  intro s.
  assert (Hr : reachable s) by (eexists; reflexivity).
  split; [exact Hr|]. split; [reflexivity|].
  exact (proj1 (no_empty_chunk s Hr)).
Defined.

(** ** The start time of a preview *)

Lemma animationFrame_single (ts : Q) (id : nat) (s : Page) :
  frameRequests s = [id] ->
  animationFrame ts s = loop ts (setFrameRequests [] s).
Proof. intro H. unfold animationFrame. rewrite H. reflexivity. Qed.

Lemma loop_state (ts : Q) (s : Page) :
  startTimeRef (loop ts s)
    = (if Qeq_bool (startTimeRef s) 0 then ts else startTimeRef s) /\
  frameRequests (loop ts s) = frameRequests s ++ [nextId s].
Proof.
  unfold loop. destruct (Qeq_bool (startTimeRef s) 0); split; reflexivity.
Qed.

Lemma startPreview_state (s : Page) :
  oneLoop s -> canvasRef s <> None -> imageRef s <> None ->
  frameRequests (startPreview s) = [nextId s] /\
  startTimeRef (startPreview s) = 0.
Proof.
  intros H Hc Hi. unfold startPreview.
  destruct (canvasRef s); [|congruence].
  destruct (imageRef s); [|congruence].
  destruct (cancelPending_clears s H) as (Hf & _ & Hn).
  unfold requestAnimationFrame. cbn. rewrite Hf, Hn. split; reflexivity.
Qed.

(** X14: After [startPreview] the first animation frame sets the start time
    to its own time stamp, so that it is drawn at 0 elapsed seconds, and
    the frames after it leave the start time alone.  A first frame with
    time stamp 0 leaves the start time unset: the next frame sets it. *)
Theorem first_frame_sets_start_time (s : Page) (ts ts' : Q) :
  reachable s -> canvasRef s <> None -> imageRef s <> None ->
  let s1 := animationFrame ts (startPreview s) in
  startTimeRef s1 = ts /\
  DrawFrame.elapsed ts (startTimeRef s1) == 0 /\
  (~ ts == 0 -> startTimeRef (animationFrame ts' s1) = ts) /\
  (ts == 0 -> startTimeRef (animationFrame ts' s1) = ts').
Proof.
  intros Hr Hc Hi s1.
  pose proof (oneLoop_reachable s Hr) as H.
  destruct (startPreview_state s H Hc Hi) as (Hf & Hs).
  assert (E1 : s1 = loop ts (setFrameRequests [] (startPreview s)))
    by (apply (animationFrame_single ts (nextId s)), Hf).
  destruct (loop_state ts (setFrameRequests [] (startPreview s)))
    as (Hst & Hfr).
  rewrite <- E1 in Hst, Hfr. cbn in Hst, Hfr. rewrite Hs in Hst.
  cbn in Hst.
  split; [exact Hst|]. split.
  - rewrite Hst. unfold DrawFrame.elapsed, Qdiv.
    setoid_replace (ts - ts) with 0 by ring. apply Qmult_0_l.
  - rewrite (animationFrame_single ts' _ s1 Hfr).
    destruct (loop_state ts' (setFrameRequests [] s1)) as (Hst' & _).
    rewrite Hst'. cbn. rewrite Hst. split; intro Hts.
    + destruct (Qeq_bool ts 0) eqn:E; [|reflexivity].
      apply Qeq_bool_iff in E. contradiction.
    + apply Qeq_bool_iff in Hts. rewrite Hts. reflexivity.
Qed.

Lemma first_frame_sets_start_time_witness :
  let s := run [PickFile 7%nat; Render; ImageLoaded 1920 1080] initialPage in
  (reachable s /\ canvasRef s <> None /\ imageRef s <> None) /\
  startTimeRef (animationFrame 33 (animationFrame 16 (startPreview s))) = 16.
Proof.
  intro s.
  assert (Hr : reachable s) by (eexists; reflexivity).
  assert (Hc : canvasRef s <> None) by discriminate.
  assert (Hi : imageRef s <> None) by discriminate.
  split; [repeat split; assumption|].
  destruct (first_frame_sets_start_time s 16 33 Hr Hc Hi) as (_ & _ & H & _).
  apply H. discriminate.
Defined.

(** ** A recording left alone *)







(** ** Stopping twice *)

(** A second [stop()] on a recorder queues nothing: however often a
    recorder is stopped (by the button, by its timeout, or by both), at
    most one stop event is queued for it, and the recorder is inactive
    after the first call. *)
Lemma stop_twice_queues_once (r : nat) (s : Page) :
  stopEvents (recorder_stop r (recorder_stop r s))
    = stopEvents (recorder_stop r s) /\
  (forall m : MediaRecorder,
     nth_error (recorders s) r = Some m ->
     exists m' : MediaRecorder,
       nth_error (recorders (recorder_stop r s)) r = Some m' /\
       state m' = inactive /\
       stopEvents (recorder_stop r s)
         = match state m with
           | recording => stopEvents s ++ [r]
           | inactive => stopEvents s
           end).
Proof.
  destruct (nth_error (recorders s) r) as [m|] eqn:E.
  - assert (E' : nth_error (recorders (recorder_stop r s)) r
                 = Some (stopped m)).
    { destruct (recorder_stop_fields r s) as (-> & _ & _).
      now rewrite nth_error_update, Nat.eqb_refl, E. }
    split.
    + unfold recorder_stop at 1. rewrite E'. reflexivity.
    + intros m0 Hm0. injection Hm0 as <-. exists (stopped m).
      split; [exact E'|]. split; [reflexivity|].
      unfold recorder_stop. rewrite E. destruct (state m); reflexivity.
  - split; [|discriminate].
    unfold recorder_stop. rewrite E. rewrite E. reflexivity.
Qed.

(** ** The size of the canvas *)

Lemma canvasSized_fields (s s' : Page) :
  canvasRef s' = canvasRef s -> canvasSized s -> canvasSized s'.
Proof. unfold canvasSized. intros ->. exact (fun H => H). Qed.

Lemma startPreview_canvas (s : Page) :
  canvasRef (startPreview s) = canvasRef s.
Proof.
  unfold startPreview, cancelPending.
  destruct (canvasRef s) eqn:Ec; [|exact Ec].
  destruct (imageRef s); [|exact Ec].
  destruct (animRef s) as [[|id]|]; cbn; exact Ec.
Qed.

Lemma stopPreview_canvas (s : Page) :
  canvasRef (stopPreview s) = canvasRef s.
Proof.
  unfold stopPreview, cancelPending.
  destruct (animRef s) as [[|id]|]; reflexivity.
Qed.

Lemma recorder_stop_canvas (r : nat) (s : Page) :
  canvasRef (recorder_stop r s) = canvasRef s.
Proof.
  unfold recorder_stop.
  destruct (nth_error (recorders s) r) as [m|]; [|reflexivity].
  destruct (state m); reflexivity.
Qed.

Lemma fold_loop_canvas (ts : Q) (l : list nat) :
  forall s : Page,
    canvasRef (fold_left (fun s' _ => loop ts s') l s) = canvasRef s.
Proof.
  induction l as [|id l IH]; intro s; simpl; [reflexivity|].
  rewrite IH. unfold loop.
  destruct (Qeq_bool (startTimeRef s) 0); reflexivity.
Qed.

Lemma fold_stop_canvas (l : list Timer) :
  forall s : Page,
    canvasRef
      (fold_left (fun s' tm => recorder_stop (timer_recorder tm) s') l s)
    = canvasRef s.
Proof.
  induction l as [|tm l IH]; intro s; simpl; [reflexivity|].
  rewrite IH. apply recorder_stop_canvas.
Qed.

Lemma render_canvas (s : Page) :
  exists c : Canvas,
    canvasRef (render s) = Some c /\ canvasFor (aspect s) c.
Proof.
  unfold render. destruct (aspect s); eexists; split; reflexivity.
Qed.

Lemma step_canvas (a : Action) (s : Page) :
  a <> Render -> canvasRef (step a s) = canvasRef s.
Proof.
  intro Ha. destruct a; simpl; try reflexivity; try congruence.
  - destruct (_ && _); [apply startPreview_canvas | reflexivity].
  - destruct (_ && _); [|reflexivity]. unfold startRecording.
    destruct (canvasRef s) eqn:Ec; [|now rewrite Ec].
    destruct (imageRef s); [|now rewrite Ec].
    unfold newMediaRecorder, setTimeout_stop, recorder_start.
    cbn [canvasRef setTimers setRecorders].
    rewrite startPreview_canvas. cbn. exact Ec.
  - destruct (isRecording s); [|reflexivity].
    unfold stopRecording. destruct (recorderRef s); [|reflexivity].
    apply recorder_stop_canvas.
  - unfold imageLoaded. destruct (imageRef s); [|reflexivity].
    rewrite startPreview_canvas. reflexivity.
  - unfold animationFrame. rewrite fold_loop_canvas. reflexivity.
  - unfold advanceTo. destruct (Qltb now (clock s)); [reflexivity|].
    rewrite fold_stop_canvas. reflexivity.
  - unfold deliverStop. destruct (stopEvents s); [reflexivity|].
    unfold onstop, createObjectURL_blob. rewrite stopPreview_canvas.
    unfold ondataavailable. destruct (0 <? size0)%nat; reflexivity.
Qed.

Lemma canvasSized_run (acts : list Action) :
  forall s : Page, canvasSized s -> canvasSized (run acts s).
Proof.
  induction acts as [|a acts IH]; intros s H; simpl; [exact H|].
  apply IH.
  assert (Hd : a = Render \/ a <> Render)
    by (destruct a; (left; reflexivity) || (right; discriminate)).
  destruct Hd as [-> | Hne].
  - simpl. destruct (render_canvas s) as (c & Ec & Hc).
    unfold canvasSized. rewrite Ec. eauto.
  - revert H. apply canvasSized_fields, step_canvas, Hne.
Qed.

(** X16: Only a render touches the canvas, and a render gives it the frame
    size of the selected aspect: whatever the events, a mounted canvas is
    540 wide and 960 or 675 high, and right after a render it is
    [round(540 / ratio)] high for the ratio of the current aspect. *)
Theorem canvas_has_frame_size (s : Page) :
  reachable s ->
  (forall c : Canvas,
     canvasRef s = Some c ->
     canvas_width c = 540 /\
     (canvas_height c = 960 \/ canvas_height c = 675)) /\
  (forall a : Action, a <> Render -> canvasRef (step a s) = canvasRef s) /\
  (exists c : Canvas,
     canvasRef (render s) = Some c /\
     constrainSize (aspect s) 540
       = Some {| width := canvas_width c; height := canvas_height c |}).
Proof.
  intros [acts ->]. split; [|split].
  - intros c Ec.
    assert (H : canvasSized (run acts initialPage))
      by (apply canvasSized_run; exact I).
    unfold canvasSized in H. rewrite Ec in H. destruct H as [a Ha].
    unfold canvasFor in Ha. destruct a; vm_compute in Ha;
      injection Ha as Hw Hh; split;
      [symmetry; exact Hw | left; symmetry; exact Hh
      | symmetry; exact Hw | right; symmetry; exact Hh].
  - intros a Ha. apply step_canvas, Ha.
  - apply render_canvas.
Qed.

Lemma canvas_has_frame_size_witness :
  let s := run [SelectAspect Aspect_4_5; Render; PickFile 7%nat] initialPage in
  let c := {| canvas_width := 540; canvas_height := 675 |} in
  reachable s /\ canvasRef s = Some c /\
  canvas_width c = 540 /\ (canvas_height c = 960 \/ canvas_height c = 675).
Proof.
  intros s c.
  assert (Hr : reachable s) by (eexists; reflexivity).
  assert (Hc : canvasRef s = Some c) by reflexivity.
  split; [exact Hr|]. split; [exact Hc|].
  exact (proj1 (canvas_has_frame_size s Hr) c Hc).
Defined.
